(** * The attestation run pipeline of [cmd/run.go]

    A shallow embedding of [runRun] and a verification of the properties
    its specification states about it.  The pipeline is sequential Go code
    that threads effects (logging, the output file, attestor instances on
    the heap, calls into go-witness) through one function body with early
    returns and one [defer]; it is embedded as a state monad over a
    [World] that carries the heap of attestor objects, the bytes that
    reached the output destination and the chronological trace of
    effects. *)

From Stdlib Require Import Strings.Byte.
From stdpp Require Import gmap strings list sorting.

(** ** Go values *)

Abbreviation bytes := (list byte).

(** Go [error] values.  [errorString] is what [fmt.Errorf] yields without a
    [%w] verb; [wrapError] is what it yields with one: the formatted message
    together with the wrapped cause. *)
Inductive error : Type :=
| errorString (msg : string)
| wrapError (msg : string) (err : error).

Definition Error (e : error) : string :=
  match e with
  | errorString msg => msg
  | wrapError msg _ => msg
  end.

(** [fmt.Errorf(prefix + "%w", err)] *)
Definition Errorf_w (prefix : string) (err : error) : error :=
  wrapError (prefix +:+ Error err) err.

(** ** Attestors

    [attestation.Attestor] is an interface.  A non-nil interface value pairs
    a dynamic type, which fixes what [Type()] answers, with a pointer to the
    mutable object; the nil interface is [None]. *)
Definition addr := nat.

Record instance : Type := Instance { inst_type : string; inst_addr : addr }.

Abbreviation Attestor := (option instance).

(** The mutable state behind an attestor pointer: the command and tracing
    flag given to [commandrun.New], and the options set so far. *)
Record object : Type := Object {
  obj_command : list string;
  obj_tracing : bool;
  obj_options : list (string * string)
}.

Definition new_object : object := Object [] false [].

(** An option setter, [func(attestation.Attestor) (attestation.Attestor, error)]:
    it may mutate the heap, answers an attestor (possibly nil, possibly a
    different instance) and an error (possibly nil). *)
Definition Setter : Type :=
  Attestor -> list object -> (Attestor * option error) * list object.

(** The [Type] constants of the go-witness packages product, material and
    commandrun, taken as given: no property below depends on their
    values. *)
Definition product_Type : string := "https://witness.dev/attestations/product/v0.1".
Definition material_Type : string := "https://witness.dev/attestations/material/v0.1".
Definition commandrun_Type : string := "https://witness.dev/attestations/command-run/v0.1".

(** ** Collaborator data *)

(** A loaded signer ([cryptoutil.Signer]), known by its key. *)
Definition Signer := string.

(** [timestamp.NewTimestamper(timestamp.TimestampWithUrl(url))] *)
Record Timestamper : Type := NewTimestamper { TimestampWithUrl : string }.

(** [dsse.Envelope] *)
Record Envelope : Type := {
  Payload : bytes;
  PayloadType : string;
  Signatures : list bytes
}.

(** [witness.RunResult], of which the pipeline reads [SignedEnvelope]. *)
Record RunResult : Type := { SignedEnvelope : Envelope }.

(** The arguments [runRun] hands to [witness.Run]. *)
Record RunRequest : Type := {
  run_StepName : string;
  run_signer : Signer;
  RunWithAttestors : list Attestor;
  WithWorkingDir : string;
  RunWithTimestampers : list Timestamper
}.

(** ** Options (package options) *)

(** [options.KeyOptions], which [runRun] only hands to [loadSigners]: the
    configured key sources. *)
Definition key_options := list string.

Record archivista_options : Type := { Enable : bool; Url : string }.

Record RunOptions : Type := {
  KeyOptions : key_options;
  OutFilePath : string;
  TimestampServers : list string;
  Tracing : bool;
  Attestations : list string;
  AttestorOptSetters : gmap string (list Setter);
  StepName : string;
  WorkingDir : string;
  ArchivistaOptions : archivista_options
}.

(** ** The world *)

(** What a run does, in the order it does it: the call of [loadSigners];
    a line of [log.Error] or [log.Infof]; the call of [loadOutfile] and
    whether it opened the destination; the construction of an attestor;
    a name [attestation.Attestors] does not find; the call of a setter
    bound to [key], with the attestor given, the attestor and the error
    answered; the call of [witness.Run] and whether it answered a result;
    the call of [json.Marshal]; the call of [out.Write]; the call of
    [Store]; the call of [out.Close]. *)
Inductive Event : Type :=
| EvLoadSigners
| EvLogError (msg : string)
| EvLogInfo (msg : string)
| EvLoadOutfile (path : string) (ok : bool)
| EvNew (a : instance)
| EvNotFound (name : string)
| EvSetter (key : string) (arg ret : Attestor) (err : option error)
| EvRun (req : RunRequest) (ok : bool)
| EvMarshal (ok : bool)
| EvWrite (data : bytes) (err : option error)
| EvStore (url : string) (ok : bool)
| EvClose.

(** The attestor objects, the bytes that reached the output destination,
    and the events so far. *)
Record World : Type := {
  heap : list object;
  out_data : bytes;
  trace : list Event
}.

Definition emit (e : Event) (w : World) : World :=
  {| heap := heap w; out_data := out_data w; trace := trace w ++ [e] |}.

(** ** The collaborators outside [cmd/run.go] *)

(** What the functions [runRun] calls answer: [loadSigners] and
    [loadOutfile] of package cmd, the registry behind
    [attestation.Attestors] (the type of the attestor a name resolves to),
    [witness.Run] on the heap it finds, [json.Marshal], [out.Write] (the
    bytes written and the error, or [None] for a complete write) and
    [archivista.Client.Store]. *)
Record Env : Type := {
  loadSigners : key_options -> list Signer * list error;
  loadOutfile : string -> option error;
  registry : string -> option string;
  witness_Run : RunRequest -> list object -> RunResult + error;
  json_Marshal : Envelope -> bytes + error;
  out_Write : bytes -> option (nat * error);
  archivista_Store : string -> Envelope -> string + error
}.

(** ** The monad of a function body that returns [error] *)

(** A statement goes on to the next one with a value, returns from the
    function with an error (or nil), or panics. *)
Inductive Step (A : Type) : Type :=
| Next (a : A)
| Return (err : option error)
| Panic (msg : string).
Arguments Next {A} a.
Arguments Return {A} err.
Arguments Panic {A} msg.

Definition M (A : Type) : Type := World -> Step A * World.

#[global] Instance M_ret : MRet M := fun A a w => (Next a, w).

#[global] Instance M_bind : MBind M := fun A B f m w =>
  match m w with
  | (Next a, w') => f a w'
  | (Return e, w') => (Return e, w')
  | (Panic msg, w') => (Panic msg, w')
  end.

(** [return e], [panic(msg)], and an effect recorded in the trace. *)
Definition return_ {A} (e : option error) : M A := fun w => (Return e, w).
Definition panic {A} (msg : string) : M A := fun w => (Panic msg, w).
Definition event (e : Event) : M unit := fun w => (Next tt, emit e w).

(** [if c { body }] where the body may return early. *)
Definition when (c : bool) (body : M unit) : M unit :=
  if c then body else mret tt.

(** [defer d] followed by the rest of the function body: [d] runs when the
    function leaves, by return or by panic. *)
Definition defer {A} (d : World -> World) (rest : M A) : M A := fun w =>
  let '(r, w') := rest w in (r, d w').

(** [for _, x := range xs { body x }] *)
Fixpoint for_range {A} (xs : list A) (body : A -> M unit) : M unit :=
  match xs with
  | [] => mret tt
  | x :: xs' => body x;; for_range xs' body
  end.

(** ** Calls that leave [cmd/run.go] *)

(** [loadSigners(ctx, ko)] *)
Definition call_loadSigners (env : Env) (ko : key_options)
  : M (list Signer * list error) := fun w =>
  (Next (loadSigners env ko), emit EvLoadSigners w).

(** [loadOutfile(path)] *)
Definition call_loadOutfile (env : Env) (path : string) : M (option error) := fun w =>
  let err := loadOutfile env path in
  (Next err, emit (EvLoadOutfile path (bool_decide (err = None))) w).

(** [log.Error] and [log.Infof]. *)
Definition newline : string := String (Ascii.ascii_of_nat 10) EmptyString.

Definition log_Error (msg : string) : M unit := event (EvLogError msg).
Definition log_Infof (msg : string) : M unit := event (EvLogInfo msg).

(** A constructor of an attestor package: a fresh object on the heap. *)
Definition alloc (ty : string) (o : object) : M Attestor := fun w =>
  let a := Instance ty (length (heap w)) in
  (Next (Some a),
   emit (EvNew a) {| heap := heap w ++ [o]; out_data := out_data w; trace := trace w |}).

(** [product.New()] and [material.New()] *)
Definition product_New : M Attestor := alloc product_Type new_object.
Definition material_New : M Attestor := alloc material_Type new_object.
(** [commandrun.New(commandrun.WithCommand(cmd), commandrun.WithTracing(tracing))] *)
Definition commandrun_New (cmd : list string) (tracing : bool) : M Attestor :=
  alloc commandrun_Type (Object cmd tracing []).

(** [attestor.Type()]: a method call through the interface, which panics
    on the nil interface. *)
Definition Type_ (attestor : Attestor) : M string :=
  match attestor with
  | Some a => mret (inst_type a)
  | None => panic "invalid memory address or nil pointer dereference"
  end.

(** The type an attestor answers to [Type()], if it is not nil. *)
Definition Type_of (attestor : Attestor) : option string := inst_type <$> attestor.

(** Modelled from the spec: [attestation.Attestors] belongs to go-witness
    and is not under src/.  Each requested name is resolved, in the order
    given, through the registry to a newly constructed instance; a name the
    registry does not know fails the whole call with an error naming it. *)
Fixpoint attestation_Attestors (env : Env) (names : list string)
  : M (list Attestor + error) :=
  match names with
  | [] => mret (inl [])
  | name :: names' =>
      match registry env name with
      | None =>
          event (EvNotFound name);;
          mret (inr (errorString ("attestor not found: " +:+ name)))
      | Some ty =>
          a ← alloc ty new_object;
          r ← attestation_Attestors env names';
          mret (match r with inl l => inl (a :: l) | inr err => inr err end)
      end
  end.

(** [setter(attestor)] *)
Definition call_setter (key : string) (setter : Setter) (attestor : Attestor)
  : M (Attestor * option error) := fun w =>
  let '(r, h) := setter attestor (heap w) in
  (Next r,
   emit (EvSetter key attestor r.1 r.2)
        {| heap := h; out_data := out_data w; trace := trace w |}).

(** Whether a call answered a value rather than an error. *)
Definition succeeded {A} (r : A + error) : bool :=
  match r with inl _ => true | inr _ => false end.

(** [witness.Run]: the attestors observe, the signer signs, the
    timestampers countersign.  Nothing after it reads the heap. *)
Definition call_witness_Run (env : Env) (req : RunRequest) : M (RunResult + error) := fun w =>
  let r := witness_Run env req (heap w) in
  (Next r, emit (EvRun req (succeeded r)) w).

(** [json.Marshal(&e)] *)
Definition call_json_Marshal (env : Env) (e : Envelope) : M (bytes + error) := fun w =>
  let r := json_Marshal env e in
  (Next r, emit (EvMarshal (succeeded r)) w).

(** [out.Write(data)]: all of [data] reaches the destination, or a prefix
    of it does and an error is answered. *)
Definition call_out_Write (env : Env) (data : bytes) : M (option error) := fun w =>
  match out_Write env data with
  | None =>
      (Next None,
       emit (EvWrite data None)
            {| heap := heap w; out_data := out_data w ++ data; trace := trace w |})
  | Some (n, err) =>
      (Next (Some err),
       emit (EvWrite data (Some err))
            {| heap := heap w; out_data := out_data w ++ take n data; trace := trace w |})
  end.

(** [archivista.New(url).Store(ctx, envelope)] *)
Definition call_archivista_Store (env : Env) (url : string) (e : Envelope)
  : M (string + error) := fun w =>
  let r := archivista_Store env url e in
  (Next r, emit (EvStore url (succeeded r)) w).

(** [out.Close()], whose error the pipeline drops. *)
Definition out_Close : World -> World := emit EvClose.

(** [if err != nil { return wrap(err) }] *)
Definition if_err (err : option error) (wrap : error -> error) : M unit :=
  match err with
  | Some err => return_ (Some (wrap err))
  | None => mret tt
  end.

(** [v, err := ...; if err != nil { return wrap(err) }] *)
Definition or_return {A} (r : A + error) (wrap : error -> error) : M A :=
  match r with
  | inl v => mret v
  | inr err => return_ (Some (wrap err))
  end.

(** ** [runRun], stage by stage *)

(** Lines 56-72: the signers are loaded; any load error, more than one
    signer, or no signer ends the run. *)
Definition resolve_signers (env : Env) (ro : RunOptions) : M (list Signer) :=
  '(signers, errors) ← call_loadSigners env (KeyOptions ro);
  when (0 <? length errors)
    (for_range errors (fun err => log_Error (Error err));;
     return_ (Some (errorString "failed to load signers")));;
  when (1 <? length signers)
    (log_Error "only one signer is supported";;
     return_ (Some (errorString "only one signer is supported")));;
  when (length signers =? 0)
    (log_Error "no signers found";;
     return_ (Some (errorString "no signers found")));;
  mret signers.

(** Lines 74-77. *)
Definition open_out (env : Env) (ro : RunOptions) : M unit :=
  err ← call_loadOutfile env (OutFilePath ro);
  if_err err (Errorf_w "failed to open out file: ").

(** Lines 79-82. *)
Definition timestampers (ro : RunOptions) : list Timestamper :=
  foldl (fun acc url => acc ++ [NewTimestamper url]) [] (TimestampServers ro).

(** Lines 84-94: the attestor list. *)
Definition build_attestors (env : Env) (ro : RunOptions) (args : list string)
  : M (list Attestor) :=
  p ← product_New;
  m ← material_New;
  let attestors := [p; m] in
  attestors ←
    (if 0 <? length args
     then c ← commandrun_New args (Tracing ro); mret (attestors ++ [c])
     else mret attestors);
  r ← attestation_Attestors env (Attestations ro);
  addtlAttestors ← or_return r (Errorf_w "failed to create attestors := ");
  mret (attestors ++ addtlAttestors).

(** Lines 101-106: the setters bound to one attestor type, applied to the
    loop variable [attestor].  The last value of the variable is answered. *)
Fixpoint apply_setters (key : string) (setters : list Setter) (attestor : Attestor)
  : M Attestor :=
  match setters with
  | [] => mret attestor
  | setter :: setters' =>
      '(attestor, err) ← call_setter key setter attestor;
      match err with
      | Some err =>
          ty ← Type_ attestor;
          return_ (Some (Errorf_w ("failed to set attestor option for " +:+ ty +:+ ": ") err))
      | None => apply_setters key setters' attestor
      end
  end.

(** Lines 96-106, the body of the outer loop: [attestor] is the range
    variable, a copy of the slice element; assigning to it leaves the slice
    as it was, and the variable goes out of scope when the iteration ends. *)
Definition bind_attestor (ro : RunOptions) (attestor : Attestor) : M unit :=
  ty ← Type_ attestor;
  match AttestorOptSetters ro !! ty with
  | None => mret tt
  | Some setters => apply_setters ty setters attestor;; mret tt
  end.

(** Lines 95-107. *)
Definition bind_options (ro : RunOptions) (attestors : list Attestor) : M unit :=
  for_range attestors (bind_attestor ro).

(** The arguments of [witness.Run] at lines 110-116. *)
Definition request (ro : RunOptions) (signer : Signer) (attestors : list Attestor)
    (timestampers : list Timestamper) : RunRequest :=
  {| run_StepName := StepName ro;
     run_signer := signer;
     RunWithAttestors := attestors;
     WithWorkingDir := WorkingDir ro;
     RunWithTimestampers := timestampers |}.

(** Lines 56-107, everything before the [defer]; the locals that are used
    after it are answered. *)
Definition prepare (env : Env) (ro : RunOptions) (args : list string)
  : M (list Signer * list Timestamper * list Attestor) :=
  signers ← resolve_signers env ro;
  open_out env ro;;
  let timestampers := timestampers ro in
  attestors ← build_attestors env ro args;
  bind_options ro attestors;;
  mret (signers, timestampers, attestors).

(** [xs[i]], which panics out of range. *)
Definition index {A} (xs : list A) (i : nat) : M A :=
  match xs !! i with
  | Some x => mret x
  | None => panic "index out of range"
  end.

(** Lines 110-140, which run under the deferred close, once the arguments
    of [witness.Run] are evaluated. *)
Definition deliver (env : Env) (ro : RunOptions) (req : RunRequest) : M Empty_set :=
  r ← call_witness_Run env req;
  result ← or_return r id;
  m ← call_json_Marshal env (SignedEnvelope result);
  signedBytes ← or_return m (Errorf_w "failed to marshal envelope: ");
  werr ← call_out_Write env signedBytes;
  if_err werr (Errorf_w "failed to write envelope to out file: ");;
  when (Enable (ArchivistaOptions ro))
    (s ← call_archivista_Store env (Url (ArchivistaOptions ro)) (SignedEnvelope result);
     gitoid ← or_return s (Errorf_w "failed to store artifact in archivist: ");
     log_Infof ("Stored in archivist as " +:+ gitoid +:+ newline));;
  return_ None.

(** Lines 55-141. *)
Definition runRun (env : Env) (ro : RunOptions) (args : list string) : M Empty_set :=
  '(signers, timestampers, attestors) ← prepare env ro args;
  defer out_Close
    (signer ← index signers 0;
     deliver env ro (request ro signer attestors timestampers)).

(** The world a run starts in: some heap, nothing written, nothing done. *)
Definition start (h : list object) : World :=
  {| heap := h; out_data := []; trace := [] |}.

(** * Vocabulary of the statements *)

(** ** Events, stage by stage *)

(** The events of the signer resolver (lines 56-72). *)
Definition signer_event (e : Event) : Prop :=
  match e with
  | EvLoadSigners | EvLogError _ => True
  | _ => False
  end.

(** The events of the attestor set builder (lines 84-94). *)
Definition build_event (e : Event) : Prop :=
  match e with
  | EvNew _ | EvNotFound _ => True
  | _ => False
  end.

(** The events of the option binder (lines 95-107), for setters bound to a
    key of class [K]. *)
Definition setter_event (K : string -> Prop) (e : Event) : Prop :=
  match e with
  | EvSetter key _ _ _ => K key
  | _ => False
  end.

(** The events that tell a failure of the attestor stages: a name the
    registry does not know, a setter that answers an error. *)
Definition setup_failure (e : Event) : Prop :=
  match e with
  | EvNotFound _ | EvSetter _ _ _ (Some _) => True
  | _ => False
  end.

(** The events of the sink and the publisher. *)
Definition sink_event (e : Event) : Prop :=
  match e with
  | EvMarshal _ | EvWrite _ _ | EvStore _ _ => True
  | _ => False
  end.

(** The events that can occur before the [defer]. *)
Definition prelude_event (e : Event) : Prop :=
  match e with
  | EvLoadSigners | EvLogError _ | EvLoadOutfile _ _
  | EvNew _ | EvNotFound _ | EvSetter _ _ _ _ => True
  | _ => False
  end.

(** ** Worlds and traces *)

(** The world after the events [evs]. *)
Definition emit_all (evs : list Event) (w : World) : World :=
  {| heap := heap w; out_data := out_data w; trace := trace w ++ evs |}.

(** The world once the output destination has been opened. *)
Definition opened (ro : RunOptions) (h : list object) : World :=
  emit_all [EvLoadSigners; EvLoadOutfile (OutFilePath ro) true] (start h).

(** [emits P m]: whatever [m] does, it only appends events of class [P] to
    the trace and leaves the output destination as it was. *)
Definition emits {A} (P : Event -> Prop) (m : M A) : Prop :=
  forall w, exists evs,
    trace (m w).2 = trace w ++ evs /\ Forall P evs /\ out_data (m w).2 = out_data w.

(** Whether an event is a close of the output destination. *)
Definition is_close (e : Event) : bool :=
  match e with EvClose => true | _ => false end.

(** How many times the output destination was closed. *)
Definition closes (t : list Event) : nat := length (List.filter is_close t).

(** Whether the output destination was opened successfully. *)
Definition opened_ok (t : list Event) : bool :=
  existsb (fun e => match e with EvLoadOutfile _ true => true | _ => false end) t.

(** The attestor lists handed to [witness.Run]. *)
Definition executed (t : list Event) : list (list Attestor) :=
  omap (fun e => match e with EvRun req _ => Some (RunWithAttestors req) | _ => None end) t.

(** The setter calls: key, attestor given, attestor answered. *)
Definition setter_calls (t : list Event) : list (string * Attestor * Attestor) :=
  omap (fun e => match e with
                 | EvSetter key arg ret _ => Some (key, arg, ret)
                 | _ => None
                 end) t.

(** ** The stages in summary *)

(** What the resolver answers for a given result of [loadSigners]: the
    error it returns and what it logs, or the one signer. *)
Definition signer_verdict (signers : list Signer) (errors : list error)
  : (string * list Event) + Signer :=
  match errors, signers with
  | _ :: _, _ => inl ("failed to load signers", EvLogError ∘ Error <$> errors)
  | [], _ :: _ :: _ =>
      inl ("only one signer is supported", [EvLogError "only one signer is supported"])
  | [], [] => inl ("no signers found", [EvLogError "no signers found"])
  | [], [s] => inr s
  end.

(** The types of the attestors the builder puts in the list, in order. *)
Definition built_types (env : Env) (ro : RunOptions) (args : list string) : list string :=
  [product_Type; material_Type]
  ++ (if 0 <? length args then [commandrun_Type] else [])
  ++ omap (registry env) (Attestations ro).
Arguments built_types : simpl never.

(** The builder up to the registry lookup: product, material and, with
    arguments, command-run. *)
Definition baseline (w : World) (args : list string) : list Attestor :=
  [Some (Instance product_Type (length (heap w)));
   Some (Instance material_Type (S (length (heap w))))]
  ++ (if 0 <? length args
      then [Some (Instance commandrun_Type (S (S (length (heap w)))))]
      else []).

(** What the error branch of the inner loop (lines 103-105) does with the
    value [ret] that the failing setter answered. *)
Definition setter_exit {A} (ret : Attestor) (err : error) : Step A :=
  match ret with
  | Some a =>
      Return (Some (Errorf_w ("failed to set attestor option for "
                              +:+ inst_type a +:+ ": ") err))
  | None => Panic "invalid memory address or nil pointer dereference"
  end.

(** A computation that answered [r] after the events [evs] stopped at the
    first failing setter. *)
Definition stops_at_failure {A} (r : Step A) (evs : list Event) : Prop :=
  forall key arg ret err,
    EvSetter key arg ret (Some err) ∈ evs -> r = setter_exit ret err.

(** A computation that answered [r] after the events [evs] stopped at the
    first name the registry does not know, with the error of line 91. *)
Definition stops_at_unknown {A} (r : Step A) (evs : list Event) : Prop :=
  forall name,
    EvNotFound name ∈ evs ->
    r = Return (Some (Errorf_w "failed to create attestors := "
                        (errorString ("attestor not found: " +:+ name)))).

(** The setters of one type applied in registration order, each to what
    the one before answered, errors aside. *)
Fixpoint chain (setters : list Setter) (attestor : Attestor) (h : list object)
  : Attestor * list object :=
  match setters with
  | [] => (attestor, h)
  | setter :: setters' =>
      let '((attestor', _), h') := setter attestor h in chain setters' attestor' h'
  end.

(** No setter of the chain answers an error. *)
Fixpoint chain_ok (setters : list Setter) (attestor : Attestor) (h : list object) : Prop :=
  match setters with
  | [] => True
  | setter :: setters' =>
      let '((attestor', err), h') := setter attestor h in
      err = None /\ chain_ok setters' attestor' h'
  end.

(** Lines 56-116 up to the call of [witness.Run], the [defer] aside:
    [prepare], then the arguments of the call. *)
Definition prepared (env : Env) (ro : RunOptions) (args : list string) : M RunRequest :=
  '(signers, timestampers, attestors) ← prepare env ro args;
  signer ← index signers 0;
  mret (request ro signer attestors timestampers).

(** Lines 79-116 up to the call of [witness.Run], for the signer [s]. *)
Definition configure (env : Env) (ro : RunOptions) (args : list string) (s : Signer)
  : M RunRequest :=
  attestors ← build_attestors env ro args;
  bind_options ro attestors;;
  mret (request ro s attestors (timestampers ro)).

(** The traces [prepare] can leave behind. *)
Inductive Prelude (env : Env) (ro : RunOptions) (args : list string)
  : list Event -> Prop :=
| prelude_signers signers errors logs :
    loadSigners env (KeyOptions ro) = (signers, errors) ->
    0 < length errors \/ length signers <> 1 ->
    Forall (fun e => exists line, e = EvLogError line) logs ->
    Prelude env ro args (EvLoadSigners :: logs)
| prelude_open s err :
    loadSigners env (KeyOptions ro) = ([s], []) ->
    loadOutfile env (OutFilePath ro) = Some err ->
    Prelude env ro args [EvLoadSigners; EvLoadOutfile (OutFilePath ro) false]
| prelude_configure s evs1 evs2 :
    loadSigners env (KeyOptions ro) = ([s], []) ->
    loadOutfile env (OutFilePath ro) = None ->
    Forall build_event evs1 ->
    Forall (setter_event (fun key => key ∈ built_types env ro args)) evs2 ->
    Prelude env ro args
      (EvLoadSigners :: EvLoadOutfile (OutFilePath ro) true :: evs1 ++ evs2).

(** ** Variants of the options *)

(** The options with the setters bound to [key] taken out of the
    mapping. *)
Definition without (key : string) (ro : RunOptions) : RunOptions :=
  {| KeyOptions := KeyOptions ro;
     OutFilePath := OutFilePath ro;
     TimestampServers := TimestampServers ro;
     Tracing := Tracing ro;
     Attestations := Attestations ro;
     AttestorOptSetters := delete key (AttestorOptSetters ro);
     StepName := StepName ro;
     WorkingDir := WorkingDir ro;
     ArchivistaOptions := ArchivistaOptions ro |}.

(** The same options with remote publishing disabled. *)
Definition unpublished (ro : RunOptions) : RunOptions :=
  {| KeyOptions := KeyOptions ro;
     OutFilePath := OutFilePath ro;
     TimestampServers := TimestampServers ro;
     Tracing := Tracing ro;
     Attestations := Attestations ro;
     AttestorOptSetters := AttestorOptSetters ro;
     StepName := StepName ro;
     WorkingDir := WorkingDir ro;
     ArchivistaOptions := {| Enable := false; Url := Url (ArchivistaOptions ro) |} |}.

(** The options with the mapping [m] of option setters. *)
Definition with_setters (m : gmap string (list Setter)) (ro : RunOptions) : RunOptions :=
  {| KeyOptions := KeyOptions ro;
     OutFilePath := OutFilePath ro;
     TimestampServers := TimestampServers ro;
     Tracing := Tracing ro;
     Attestations := Attestations ro;
     AttestorOptSetters := m;
     StepName := StepName ro;
     WorkingDir := WorkingDir ro;
     ArchivistaOptions := ArchivistaOptions ro |}.

(** ** The attestor order in the words of the specification *)

(** The order as the specification words it: material and product alone
    without arguments, else material, product, command-run and the
    pluggable attestors. *)
Definition spec_attestor_order (args pluggable : list string) : list string :=
  match args with
  | [] => [material_Type; product_Type]
  | _ => [material_Type; product_Type; commandrun_Type] ++ pluggable
  end.

(** ** Concrete runs *)

(** The types of two pluggable attestors. *)
Definition git_Type : string := "https://witness.dev/attestations/git/v0.1".

Definition sbom_Type : string := "https://witness.dev/attestations/sbom/v0.1".

(** The envelope the demo orchestrator answers for a step. *)
Definition demo_envelope (step : string) : Envelope :=
  {| Payload := String.list_byte_of_string step;
     PayloadType := "application/vnd.in-toto+json";
     Signatures := [String.list_byte_of_string "sig"] |}.

(** An environment whose registry knows [git] and whose other
    collaborators answer as told: [None] where a collaborator succeeds. *)
Definition make_env (signers : list Signer * list error) (open run marshal : option error)
    (write : option (nat * error)) (store : option error) : Env :=
  {| loadSigners := fun _ => signers;
     loadOutfile := fun _ => open;
     registry := fun name => if String.eqb name "git" then Some git_Type else None;
     witness_Run := fun req _ =>
       match run with
       | None => inl {| SignedEnvelope := demo_envelope (run_StepName req) |}
       | Some err => inr err
       end;
     json_Marshal := fun e =>
       match marshal with None => inl (Payload e) | Some err => inr err end;
     out_Write := fun _ => write;
     archivista_Store := fun _ _ =>
       match store with None => inl "gitoid:blob:sha256:0a" | Some err => inr err end |}.

(** One key that loads, and everything succeeds. *)
Definition demo_env : Env := make_env (["key.pem"], []) None None None None None.

(** The demo environment with another result of [loadSigners]. *)
Definition with_signers (signers : list Signer * list error) : Env :=
  make_env signers None None None None None.

(** Two key sources that fail to load. *)
Definition key_errors : list error :=
  [errorString "open a.pem: no such file or directory";
   errorString "spiffe: no workload socket"].

(** The orchestrator fails: a timestamp authority cannot be reached. *)
Definition run_fails_env : Env :=
  make_env (["key.pem"], []) None (Some (errorString "timestamp authority unreachable"))
    None None None.

(** The remote store fails. *)
Definition store_fails_env : Env :=
  make_env (["key.pem"], []) None None None None
    (Some (errorString "503 service unavailable")).

(** One timestamp server, the [git] attestor requested, no option setter,
    publishing enabled. *)
Definition demo_ro : RunOptions :=
  {| KeyOptions := ["key.pem"];
     OutFilePath := "out.json";
     TimestampServers := ["https://tsa.example"];
     Tracing := false;
     Attestations := ["git"];
     AttestorOptSetters := ∅;
     StepName := "build";
     WorkingDir := ".";
     ArchivistaOptions := {| Enable := true; Url := "https://archivista.example" |} |}.

(** A request for an attestor the registry does not know. *)
Definition unknown_ro : RunOptions :=
  {| KeyOptions := ["key.pem"];
     OutFilePath := "out.json";
     TimestampServers := [];
     Tracing := false;
     Attestations := ["git"; "sbom"];
     AttestorOptSetters := ∅;
     StepName := "build";
     WorkingDir := ".";
     ArchivistaOptions := {| Enable := false; Url := "" |} |}.

(** A setter that rejects its option: it answers the error and, as Go
    functions do on their error path, the zero value of its result type. *)
Definition rejecting_setter (msg : string) : Setter :=
  fun _ h => ((None, Some (errorString msg)), h).

(** A setter that rejects its option and answers the attestor it was
    given along with the error. *)
Definition failing_setter (msg : string) : Setter :=
  fun attestor h => ((attestor, Some (errorString msg)), h).

(** A setter in the functional style: it leaves the attestor it is given
    as it is and answers a new instance, of the same type, that carries
    the option. *)
Definition fresh_setter (k v : string) : Setter :=
  fun attestor h =>
    match attestor with
    | Some a =>
        let o := default new_object (h !! inst_addr a) in
        ((Some (Instance (inst_type a) (length h)), None),
         h ++ [Object (obj_command o) (obj_tracing o) (obj_options o ++ [(k, v)])])
    | None => ((None, Some (errorString "nil attestor")), h)
    end.

(** A setter bound to the material type rejects its option and answers
    nil. *)
Definition rejecting_ro : RunOptions :=
  with_setters {[ material_Type := [rejecting_setter "unknown hash algorithm"] ]} demo_ro.

(** A setter bound to the command-run type rejects its option. *)
Definition failing_ro : RunOptions :=
  with_setters {[ commandrun_Type := [failing_setter "unknown option"] ]} demo_ro.

(** Setters bound to the type of an attestor that is not requested; the
    setter would fail the run if it were called. *)
Definition sbom_ro : RunOptions :=
  with_setters {[ sbom_Type := [rejecting_setter "never called"] ]} demo_ro.

(** Two functional-style setters bound to the product type. *)
Definition fresh_ro : RunOptions :=
  with_setters
    {[ product_Type := [fresh_setter "include-glob" "*.go";
                        fresh_setter "exclude-glob" "vendor/*"] ]}
    demo_ro.

(** ** The exits of the pipeline *)

(** The errors [runRun] can return, exit by exit: lines 61, 66 and 71; line
    76; line 91; line 104; line 119, which hands on the error of
    [witness.Run] as it is; lines 124, 128 and 134. *)
Inductive ErrorExit (env : Env) (ro : RunOptions) : error -> Prop :=
| exit_signers msg :
    msg ∈ ["failed to load signers"; "only one signer is supported"; "no signers found"] ->
    ErrorExit env ro (errorString msg)
| exit_open err :
    loadOutfile env (OutFilePath ro) = Some err ->
    ErrorExit env ro (Errorf_w "failed to open out file: " err)
| exit_attestors name :
    name ∈ Attestations ro ->
    registry env name = None ->
    ErrorExit env ro (Errorf_w "failed to create attestors := "
                        (errorString ("attestor not found: " +:+ name)))
| exit_setter key setter setters arg a h err :
    AttestorOptSetters ro !! key = Some setters ->
    setter ∈ setters ->
    (setter arg h).1 = (Some a, Some err) ->
    ErrorExit env ro (Errorf_w ("failed to set attestor option for "
                                +:+ inst_type a +:+ ": ") err)
| exit_run req h err :
    witness_Run env req h = inr err ->
    ErrorExit env ro err
| exit_marshal e err :
    json_Marshal env e = inr err ->
    ErrorExit env ro (Errorf_w "failed to marshal envelope: " err)
| exit_write data n err :
    out_Write env data = Some (n, err) ->
    ErrorExit env ro (Errorf_w "failed to write envelope to out file: " err)
| exit_store e err :
    Enable (ArchivistaOptions ro) = true ->
    archivista_Store env (Url (ArchivistaOptions ro)) e = inr err ->
    ErrorExit env ro (Errorf_w "failed to store artifact in archivist: " err).

(** The calls the pipeline makes outside the loops. *)
Inductive Call : Type :=
| CallLoadSigners | CallLoadOutfile | CallRun | CallMarshal | CallWrite
| CallStore | CallClose.

#[global] Instance Call_eq_dec : EqDecision Call.
Proof. solve_decision. Defined.

(** The call an event records, if it records one of them. *)
Definition call_of (e : Event) : option Call :=
  match e with
  | EvLoadSigners => Some CallLoadSigners
  | EvLoadOutfile _ _ => Some CallLoadOutfile
  | EvRun _ _ => Some CallRun
  | EvMarshal _ => Some CallMarshal
  | EvWrite _ _ => Some CallWrite
  | EvStore _ _ => Some CallStore
  | EvClose => Some CallClose
  | _ => None
  end.

(** The stage of the pipeline an event belongs to, in source order: signer
    resolver, opening of the output, attestor set builder, option binder,
    orchestrator, marshalling, write, publisher, report, close. *)
Definition stage (e : Event) : nat :=
  match e with
  | EvLoadSigners | EvLogError _ => 0
  | EvLoadOutfile _ _ => 1
  | EvNew _ | EvNotFound _ => 2
  | EvSetter _ _ _ _ => 3
  | EvRun _ _ => 4
  | EvMarshal _ => 5
  | EvWrite _ _ => 6
  | EvStore _ _ => 7
  | EvLogInfo _ => 8
  | EvClose => 9
  end.

(** What stands behind an event of the attestor stages: a name reported
    as not found is a requested name the registry does not know; a setter
    call is the call of a setter bound to that key, on some heap, and the
    event records what it answered. *)
Definition justified (env : Env) (ro : RunOptions) (e : Event) : Prop :=
  match e with
  | EvNotFound name => name ∈ Attestations ro /\ registry env name = None
  | EvSetter key arg ret err =>
      exists setters setter h,
        AttestorOptSetters ro !! key = Some setters
        /\ setter ∈ setters
        /\ (setter arg h).1 = (ret, err)
  | _ => True
  end.

(** ** The option binder as a fold *)

(** The setters bound to the type of an attestor. *)
Definition setters_of (ro : RunOptions) (attestor : Attestor) : list Setter :=
  default [] (a ← attestor; AttestorOptSetters ro !! inst_type a).

(** The heap after the setters of each attestor of the list were applied,
    attestor after attestor. *)
Definition bind_heap (ro : RunOptions) (attestors : list Attestor) (h : list object)
  : list object :=
  foldl (fun h attestor => (chain (setters_of ro attestor) attestor h).2) h attestors.

(** ** What the builder allocates *)

(** Instances of the types [tys], in order, at consecutive addresses from
    [base] on. *)
Definition allocated (base : nat) (tys : list string) : list Attestor :=
  imap (fun i ty => Some (Instance ty (base + i))) tys.
Arguments allocated : simpl never.

(** The objects behind the attestors of the builder, in order: product and
    material as their constructors leave them, command-run with the command
    and the tracing flag it was given, [n] pluggable attestors as the
    registry constructs them. *)
Definition built_objects (ro : RunOptions) (args : list string) (n : nat) : list object :=
  [new_object; new_object]
  ++ (if 0 <? length args then [Object args (Tracing ro) []] else [])
  ++ replicate n new_object.

(** ** More concrete runs *)

(** A setter in the pointer style of go-witness: it sets the option on
    the object of the attestor it is given and answers that attestor. *)
Definition inplace_setter (k v : string) : Setter :=
  fun attestor h =>
    match attestor with
    | Some a =>
        match h !! inst_addr a with
        | Some o =>
            ((attestor, None),
             <[inst_addr a := Object (obj_command o) (obj_tracing o)
                                (obj_options o ++ [(k, v)])]> h)
        | None => ((attestor, Some (errorString "no such attestor")), h)
        end
    | None => ((None, Some (errorString "nil attestor")), h)
    end.

(** Two in-place setters bound to the product type. *)
Definition inplace_ro : RunOptions :=
  with_setters
    {[ product_Type := [inplace_setter "include-glob" "*.go";
                        inplace_setter "exclude-glob" "vendor/*"] ]}
    demo_ro.

(** The output file cannot be created. *)
Definition open_fails_env : Env :=
  make_env (["key.pem"], []) (Some (errorString "open out.json: permission denied"))
    None None None None.

(** The envelope cannot be marshalled. *)
Definition marshal_fails_env : Env :=
  make_env (["key.pem"], []) None None (Some (errorString "json: unsupported value"))
    None None.

(** The disk is full after three bytes. *)
Definition write_fails_env : Env :=
  make_env (["key.pem"], []) None None None
    (Some (3, errorString "write out.json: no space left on device")) None.

(** * Lemmas *)

(** ** Reasoning about the monad *)

Lemma bind_run {A B} (m : M A) (f : A -> M B) (w : World) :
  (m ≫= f) w =
  match m w with
  | (Next a, w') => f a w'
  | (Return e, w') => (Return e, w')
  | (Panic msg, w') => (Panic msg, w')
  end.
Proof. reflexivity. Qed.

(** Runs the straight-line part of a computation. *)
Ltac mrun :=
  repeat (unfold mbind, M_bind, mret, M_ret, return_, panic, event, when,
            if_err, or_return, log_Error, log_Infof, emit, defer, out_Close;
          cbn).

Lemma Forall_elem {A} (P : A -> Prop) (l : list A) (x : A) :
  Forall P l -> x ∈ l -> P x.
Proof. rewrite Forall_forall. auto. Qed.

(** Splits the cases of [deliver_cases] in hypothesis [H]. *)
Ltac deliver_split H :=
  repeat match type of H with
         | context [match ?x with inl _ => _ | inr _ => _ end] => destruct x eqn:?
         | context [match ?x with Some _ => _ | None => _ end] =>
             destruct x as [[? ?]|] eqn:?
         | context [if ?b then _ else _] => destruct b eqn:?
         end;
  cbv zeta in H; destruct_and?; subst.

(** Splits [e ∈ t] for a trace [t] built with [++] and [::]. *)
Ltac trace_split H :=
  repeat first
    [ apply elem_of_app in H as [H|H]
    | apply elem_of_cons in H as [H|H]
    | apply elem_of_nil in H; destruct H ].

Section Emits.
Context (P : Event -> Prop).

Lemma emits_ret {A} (a : A) : emits P (mret a).
Proof. intros w. exists []. simpl. rewrite app_nil_r. auto. Qed.

Lemma emits_return {A} e : emits P (@return_ A e).
Proof. intros w. exists []. simpl. rewrite app_nil_r. auto. Qed.

Lemma emits_panic {A} msg : emits P (@panic A msg).
Proof. intros w. exists []. simpl. rewrite app_nil_r. auto. Qed.

Lemma emits_event e : P e -> emits P (event e).
Proof. intros He w. exists [e]. simpl. auto. Qed.

Lemma emits_bind {A B} (m : M A) (f : A -> M B) :
  emits P m -> (forall a, emits P (f a)) -> emits P (m ≫= f).
Proof.
  intros Hm Hf w. rewrite bind_run.
  destruct (Hm w) as (evs1 & Ht1 & HP1 & Ho1).
  destruct (m w) as [[a|e|msg] w1]; simpl in *; [|by eauto..].
  destruct (Hf a w1) as (evs2 & Ht2 & HP2 & Ho2).
  exists (evs1 ++ evs2). rewrite Ht2, Ht1, Ho2, Ho1, app_assoc.
  split_and!; [done| |done]. by apply Forall_app.
Qed.

Lemma emits_ret_bind {A B} (a : A) (f : A -> M B) :
  emits P (f a) -> emits P (mret a ≫= f).
Proof. intros Hf w. exact (Hf w). Qed.

Lemma emits_panic_bind {A B} msg (f : A -> M B) : emits P (panic msg ≫= f).
Proof. intros w. exists []. cbn. rewrite app_nil_r. auto. Qed.

Lemma emits_for_range_in {A} (xs : list A) (body : A -> M unit) :
  (forall x, x ∈ xs -> emits P (body x)) -> emits P (for_range xs body).
Proof.
  induction xs as [|x xs IH]; intros Hbody; simpl.
  - apply emits_ret.
  - apply emits_bind; [apply Hbody; left | intros _; apply IH].
    intros y Hy. apply Hbody. by right.
Qed.

Lemma emits_or_return {A} (r : A + error) wrap : emits P (or_return r wrap).
Proof. destruct r; [apply emits_ret | apply emits_return]. Qed.

Lemma emits_Type_ attestor : emits P (Type_ attestor).
Proof. destruct attestor; [apply emits_ret | apply emits_panic]. Qed.
End Emits.

Create HintDb emits.
#[local] Hint Resolve emits_ret emits_return emits_panic emits_event
  emits_or_return emits_Type_ emits_panic_bind : emits.

Lemma emits_alloc ty o : emits build_event (alloc ty o).
Proof.
  intros w. exists [EvNew (Instance ty (length (heap w)))]. simpl.
  split_and!; [done| |done]. repeat constructor.
Qed.

Lemma emits_call_setter (K : string -> Prop) key setter attestor :
  K key -> emits (setter_event K) (call_setter key setter attestor).
Proof.
  intros HK w. unfold call_setter.
  destruct (setter attestor (heap w)) as [r h]. simpl.
  eexists [_]. split_and!; [done| |done]. by repeat constructor.
Qed.

Lemma emits_attestation_Attestors env names :
  emits build_event (attestation_Attestors env names).
Proof.
  induction names as [|name names IH]; simpl; [auto with emits|].
  destruct (registry env name).
  - apply emits_bind; [apply emits_alloc|]. intros a.
    apply emits_bind; [exact IH|]. auto with emits.
  - apply emits_bind; [by apply emits_event|]. auto with emits.
Qed.

Lemma emits_build_attestors env ro args :
  emits build_event (build_attestors env ro args).
Proof.
  unfold build_attestors, product_New, material_New, commandrun_New.
  apply emits_bind; [apply emits_alloc|]. intros p.
  apply emits_bind; [apply emits_alloc|]. intros m.
  apply emits_bind.
  { destruct (0 <? length args); [|auto with emits].
    apply emits_bind; [apply emits_alloc|]. auto with emits. }
  intros attestors.
  apply emits_bind; [apply emits_attestation_Attestors|]. intros r.
  apply emits_bind; auto with emits.
Qed.

Lemma emits_apply_setters (K : string -> Prop) key setters attestor :
  K key -> emits (setter_event K) (apply_setters key setters attestor).
Proof.
  intros HK.
  revert attestor. induction setters as [|setter setters IH]; intros attestor; simpl.
  - apply emits_ret.
  - apply emits_bind; [by apply emits_call_setter|]. intros [a [err|]].
    + apply emits_bind; [apply emits_Type_|]. intros ty. apply emits_return.
    + apply IH.
Qed.

(** The binder applies setters only under the type of an attestor of the
    list. *)
Lemma emits_bind_options ro attestors :
  emits (setter_event (fun key => Some key ∈ Type_of <$> attestors))
        (bind_options ro attestors).
Proof.
  apply emits_for_range_in. intros attestor Hin. unfold bind_attestor.
  destruct attestor as [a|]; cbn.
  - apply emits_ret_bind.
    destruct (AttestorOptSetters ro !! inst_type a); [|apply emits_ret].
    apply emits_bind; [|intros _; apply emits_ret].
    apply emits_apply_setters.
    apply list_elem_of_fmap. by exists (Some a).
  - apply emits_panic_bind.
Qed.

(** ** The signer resolver (lines 56-72) *)

Lemma log_errors_run (errors : list error) (w : World) :
  for_range errors (fun err => log_Error (Error err)) w
  = (Next tt, emit_all (EvLogError ∘ Error <$> errors) w).
Proof.
  revert w. induction errors as [|err errors IH]; intros w; simpl.
  - destruct w. unfold emit_all. simpl. by rewrite app_nil_r.
  - rewrite bind_run. simpl. rewrite IH. unfold emit_all. simpl.
    by rewrite <- app_assoc.
Qed.

Lemma resolve_signers_run env ro w :
  resolve_signers env ro w =
  let '(signers, errors) := loadSigners env (KeyOptions ro) in
  match signer_verdict signers errors with
  | inl (msg, logs) => (Return (Some (errorString msg)), emit_all (EvLoadSigners :: logs) w)
  | inr s => (Next [s], emit_all [EvLoadSigners] w)
  end.
Proof.
  unfold resolve_signers, call_loadSigners. rewrite bind_run.
  destruct (loadSigners env (KeyOptions ro)) as [signers errors].
  destruct errors as [|err errors].
  - destruct signers as [|s [|s' signers]]; mrun; unfold emit_all; cbn;
      by rewrite <- ?app_assoc.
  - cbn [signer_verdict length Nat.ltb Nat.leb when].
    rewrite bind_run, bind_run, log_errors_run. cbn.
    unfold emit_all. cbn. by rewrite <- app_assoc.
Qed.

(** ** The attestor set builder (lines 84-94) *)

Lemma attestation_Attestors_next env names w :
  exists r w', attestation_Attestors env names w = (Next r, w').
Proof.
  revert w. induction names as [|name names IH]; intros w; simpl.
  - by eexists _, _.
  - destruct (registry env name) as [ty|]; [|by eexists _, _].
    rewrite bind_run. cbn. rewrite bind_run.
    edestruct IH as (r & w' & ->). by eexists _, _.
Qed.

Lemma attestation_Attestors_types env names w l w' :
  attestation_Attestors env names w = (Next (inl l), w') ->
  Type_of <$> l = Some <$> omap (registry env) names.
Proof.
  revert w l w'. induction names as [|name names IH]; intros w l w'; simpl.
  - by intros [= <- _].
  - destruct (registry env name) as [ty|]; [|by intros [=]].
    rewrite bind_run. cbn. rewrite bind_run.
    match goal with |- context [attestation_Attestors env names ?w1] =>
      destruct (attestation_Attestors_next env names w1) as (r & w2 & Hr) end.
    rewrite Hr. destruct r as [l'|err]; intros [= <- _]; cbn.
    f_equal. by eapply IH.
Qed.

Lemma attestation_Attestors_resolved env names w :
  Forall (fun name => is_Some (registry env name)) names ->
  exists l w', attestation_Attestors env names w = (Next (inl l), w').
Proof.
  intros Hall. revert w. induction Hall as [|name names [ty Hty] _ IH]; intros w; simpl.
  - by eexists _, _.
  - rewrite Hty, bind_run. cbn. rewrite bind_run.
    edestruct IH as (l & w' & ->). by eexists _, _.
Qed.

Lemma build_attestors_run env ro args w :
  exists w1, build_attestors env ro args w =
    (r ← attestation_Attestors env (Attestations ro);
     addtlAttestors ← or_return r (Errorf_w "failed to create attestors := ");
     mret (baseline w args ++ addtlAttestors)) w1.
Proof.
  unfold build_attestors, baseline, product_New, material_New, commandrun_New.
  unfold alloc. mrun. rewrite !length_app. cbn. rewrite !Nat.add_1_r.
  destruct (length args); cbn; rewrite ?length_app; cbn; rewrite ?Nat.add_1_r;
    by eexists.
Qed.

Lemma build_attestors_types env ro args w l w' :
  build_attestors env ro args w = (Next l, w') ->
  Type_of <$> l = Some <$> built_types env ro args.
Proof.
  destruct (build_attestors_run env ro args w) as (w1 & ->).
  rewrite bind_run.
  destruct (attestation_Attestors_next env (Attestations ro) w1) as (r & w2 & Hr).
  rewrite Hr. destruct r as [addtl|err]; [|by intros [=]].
  intros [= <- _]. unfold built_types, baseline.
  rewrite !fmap_app, !fmap_cons, fmap_app.
  rewrite (attestation_Attestors_types _ _ _ _ _ Hr).
  by destruct (0 <? length args).
Qed.

Lemma build_attestors_resolved env ro args w :
  Forall (fun name => is_Some (registry env name)) (Attestations ro) ->
  exists l w', build_attestors env ro args w = (Next l, w').
Proof.
  intros Hall. destruct (build_attestors_run env ro args w) as (w1 & ->).
  rewrite bind_run.
  destruct (attestation_Attestors_resolved env _ w1 Hall) as (l & w' & ->).
  by eexists _, _.
Qed.

Lemma attestation_Attestors_unknown env names w :
  exists evs,
    trace (attestation_Attestors env names w).2 = trace w ++ evs
    /\ forall name,
         EvNotFound name ∈ evs ->
         (attestation_Attestors env names w).1
         = Next (inr (errorString ("attestor not found: " +:+ name))).
Proof.
  revert w. induction names as [|name names IH]; intros w; simpl.
  - exists []. rewrite app_nil_r. split; [done|].
    intros name Hin. by apply elem_of_nil in Hin.
  - destruct (registry env name) as [ty|].
    + rewrite bind_run. cbn. rewrite bind_run.
      match goal with |- context [attestation_Attestors env names ?w1] =>
        destruct (IH w1) as (evs & Ht & Hunknown);
        destruct (attestation_Attestors_next env names w1) as (r & w2 & Hr) end.
      rewrite Hr in *. cbn in *.
      exists (EvNew (Instance ty (length (heap w))) :: evs).
      rewrite Ht, <- app_assoc. split; [done|].
      intros name' Hin. apply elem_of_cons in Hin as [?|Hin]; [done|].
      by injection (Hunknown _ Hin) as ->.
    + exists [EvNotFound name]. split; [done|].
      intros name' Hin. apply list_elem_of_singleton in Hin. by injection Hin as ->.
Qed.

Lemma build_attestors_unknown env ro args w :
  exists evs,
    trace (build_attestors env ro args w).2 = trace w ++ evs
    /\ stops_at_unknown (build_attestors env ro args w).1 evs.
Proof.
  destruct (emits_build_attestors env ro args w) as (evs & Ht & _ & _).
  exists evs. split; [done|]. revert Ht.
  unfold build_attestors, product_New, material_New, commandrun_New, alloc.
  destruct args as [|arg args]; mrun.
  all: match goal with |- context [attestation_Attestors ?env' ?names ?w1] =>
         destruct (attestation_Attestors_unknown env' names w1)
           as (evs' & Ht' & Hunknown);
         destruct (attestation_Attestors env' names w1) as [[[l|err]|e|msg] w2]
       end; cbn in *; rewrite Ht', <- !app_assoc;
       intros Heq; apply app_inv_head in Heq as <-;
       intros name Hin; trace_split Hin; try done;
       specialize (Hunknown _ Hin); congruence.
Qed.

(** ** The option binder (lines 95-107) *)

Lemma stops_at_failure_nil {A} (r : Step A) : stops_at_failure r [].
Proof. intros key arg ret err Hin. by apply elem_of_nil in Hin. Qed.

Lemma stops_at_failure_next {A} (a : A) evs key arg ret err :
  stops_at_failure (Next a) evs -> EvSetter key arg ret (Some err) ∉ evs.
Proof. intros Hs Hin. apply Hs in Hin. by destruct ret. Qed.

Lemma apply_setters_failure key setters attestor w :
  exists evs,
    trace (apply_setters key setters attestor w).2 = trace w ++ evs
    /\ stops_at_failure (apply_setters key setters attestor w).1 evs.
Proof.
  revert attestor w.
  induction setters as [|setter setters IH]; intros attestor w; simpl.
  - exists []. rewrite app_nil_r. split; [done|]. apply stops_at_failure_nil.
  - rewrite bind_run. unfold call_setter.
    destruct (setter attestor (heap w)) as [[ret [err|]] h']; cbn.
    + exists [EvSetter key attestor ret (Some err)].
      split; [by destruct ret|].
      intros k a r e Hin. apply list_elem_of_singleton in Hin.
      injection Hin as -> -> -> ->. by destruct ret.
    + match goal with |- context [apply_setters key setters ret ?w1] =>
        destruct (IH ret w1) as (evs & Ht & Hs) end.
      exists (EvSetter key attestor ret None :: evs).
      rewrite Ht. cbn. rewrite <- app_assoc. split; [done|].
      intros k a r e Hin. apply elem_of_cons in Hin as [Heq|Hin]; [done|].
      by apply Hs in Hin.
Qed.

Lemma bind_attestor_failure ro attestor w :
  exists evs,
    trace (bind_attestor ro attestor w).2 = trace w ++ evs
    /\ stops_at_failure (bind_attestor ro attestor w).1 evs.
Proof.
  unfold bind_attestor. rewrite bind_run. destruct attestor as [a|]; cbn.
  2: { exists []. rewrite app_nil_r. split; [done|]. apply stops_at_failure_nil. }
  destruct (AttestorOptSetters ro !! inst_type a) as [setters|]; cbn.
  2: { exists []. rewrite app_nil_r. split; [done|]. apply stops_at_failure_nil. }
  rewrite bind_run.
  destruct (apply_setters_failure (inst_type a) setters (Some a) w)
    as (evs & Ht & Hs).
  destruct (apply_setters (inst_type a) setters (Some a) w) as [[a'|e|msg] w1];
    cbn in *; exists evs; (split; [done|]); intros k arg ret err Hin.
  - by apply (stops_at_failure_next _ _ _ _ _ _ Hs) in Hin.
  - specialize (Hs _ _ _ _ Hin). destruct ret; cbn in *; congruence.
  - specialize (Hs _ _ _ _ Hin). destruct ret; cbn in *; congruence.
Qed.

Lemma bind_options_failure ro attestors w :
  exists evs,
    trace (bind_options ro attestors w).2 = trace w ++ evs
    /\ stops_at_failure (bind_options ro attestors w).1 evs.
Proof.
  unfold bind_options. revert w.
  induction attestors as [|attestor attestors IH]; intros w; simpl.
  - exists []. rewrite app_nil_r. split; [done|]. apply stops_at_failure_nil.
  - rewrite bind_run.
    destruct (bind_attestor_failure ro attestor w) as (evs1 & Ht1 & Hs1).
    destruct (bind_attestor ro attestor w) as [[[]|e|msg] w1]; cbn in *;
      [|by exists evs1..].
    destruct (IH w1) as (evs2 & Ht2 & Hs2).
    exists (evs1 ++ evs2). rewrite Ht2, Ht1, app_assoc. split; [done|].
    intros k arg ret err Hin. apply elem_of_app in Hin as [Hin|Hin].
    + by apply (stops_at_failure_next _ _ _ _ _ _ Hs1) in Hin.
    + by apply (Hs2 _ _ _ _ Hin).
Qed.

Lemma bind_attestor_without key ro attestor w :
  Type_of attestor <> Some key ->
  bind_attestor (without key ro) attestor w = bind_attestor ro attestor w.
Proof.
  intros Hne. unfold bind_attestor. rewrite !bind_run.
  destruct attestor as [a|]; cbn; [|done].
  rewrite lookup_delete_ne; [done|]. intros ->. by apply Hne.
Qed.

Lemma bind_options_without key ro attestors w :
  Some key ∉ Type_of <$> attestors ->
  bind_options (without key ro) attestors w = bind_options ro attestors w.
Proof.
  unfold bind_options. revert w.
  induction attestors as [|attestor attestors IH]; intros w Hnot; [done|].
  rewrite fmap_cons, not_elem_of_cons in Hnot. destruct Hnot as [Hne Hnot].
  simpl. rewrite !bind_run, bind_attestor_without by done.
  destruct (bind_attestor ro attestor w) as [[[]|e|msg] w1]; [by apply IH|done..].
Qed.

(** ** The pipeline before the [defer] (lines 56-107) *)

(** After [prepare] the signer list holds exactly one signer. *)
Lemma prepare_signers env ro args w signers ts l w' :
  prepare env ro args w = (Next (signers, ts, l), w') -> exists s, signers = [s].
Proof.
  unfold prepare. rewrite bind_run, resolve_signers_run.
  destruct (loadSigners env (KeyOptions ro)) as [signers0 errors].
  destruct (signer_verdict signers0 errors) as [[msg logs]|s]; [done|].
  rewrite bind_run.
  destruct (open_out env ro _) as [[[]|e|msg] w1]; [|done..].
  cbv zeta. rewrite bind_run.
  destruct (build_attestors env ro args w1) as [[l'|e|msg] w2]; [|done..].
  rewrite bind_run.
  destruct (bind_options ro l' w2) as [[[]|e|msg] w3]; [|done..].
  intros [= <- _ _ _]. by exists s.
Qed.

(** The run is [prepared] followed, under the deferred close, by
    [deliver]. *)
Lemma runRun_prepared env ro args w :
  runRun env ro args w =
  match prepared env ro args w with
  | (Next req, w') => defer out_Close (deliver env ro req) w'
  | (Return e, w') => (Return e, w')
  | (Panic msg, w') => (Panic msg, w')
  end.
Proof.
  unfold runRun, prepared. rewrite !bind_run.
  destruct (prepare env ro args w) as [[[[signers ts] l]|e|msg] w'] eqn:Hprep;
    [|done..].
  by destruct (prepare_signers _ _ _ _ _ _ _ _ Hprep) as [s ->].
Qed.

Lemma prepare_run env ro args h :
  prepared env ro args (start h) =
  let '(signers, errors) := loadSigners env (KeyOptions ro) in
  match signer_verdict signers errors with
  | inl (msg, logs) =>
      (Return (Some (errorString msg)), emit_all (EvLoadSigners :: logs) (start h))
  | inr s =>
      match loadOutfile env (OutFilePath ro) with
      | Some err =>
          (Return (Some (Errorf_w "failed to open out file: " err)),
           emit_all [EvLoadSigners; EvLoadOutfile (OutFilePath ro) false] (start h))
      | None => configure env ro args s (opened ro h)
      end
  end.
Proof.
  unfold prepared, prepare, configure. rewrite !bind_run, resolve_signers_run.
  destruct (loadSigners env (KeyOptions ro)) as [signers errors].
  destruct (signer_verdict signers errors) as [[msg logs]|s]; [done|].
  unfold open_out, call_loadOutfile. rewrite !bind_run.
  destruct (loadOutfile env (OutFilePath ro)) as [err|]; [done|]. cbn.
  change (emit _ (emit_all _ (start h))) with (opened ro h).
  rewrite !bind_run.
  destruct (build_attestors env ro args (opened ro h)) as [[l|e|msg] w1]; [|done..].
  rewrite !bind_run.
  by destruct (bind_options ro l w1) as [[[]|e|msg] w2].
Qed.

Lemma signer_verdict_inr signers errors s :
  signer_verdict signers errors = inr s -> signers = [s] /\ errors = [].
Proof.
  destruct errors as [|err errors]; [|by cbn].
  destruct signers as [|s1 [|s2 signers]]; intros Heq; by simplify_eq/=.
Qed.

Lemma log_lines errors :
  Forall (fun e => exists line, e = EvLogError line) (EvLogError ∘ Error <$> errors).
Proof. induction errors; constructor; [by eexists | done]. Qed.

Lemma signer_verdict_inl signers errors msg logs :
  signer_verdict signers errors = inl (msg, logs) ->
  (0 < length errors \/ length signers <> 1)
  /\ Forall (fun e => exists line, e = EvLogError line) logs.
Proof.
  destruct errors as [|err errors].
  - destruct signers as [|s1 [|s2 signers]]; intros [= <- <-]; cbn;
      (split; [right; lia|]); (constructor; [by eexists|constructor]).
  - intros [= <- <-]. split; [left; cbn; lia|].
    apply (log_lines (err :: errors)).
Qed.

(** The attestor stages only add builder events [evs1] and then binder
    events [evs2]; they stop at the first failing setter; what they hand on
    is the request with the list the builder answered. *)
Lemma configure_cases env ro args s w :
  exists evs1 evs2,
    Forall build_event evs1
    /\ Forall (setter_event (fun key => key ∈ built_types env ro args)) evs2
    /\ stops_at_failure (configure env ro args s w).1 evs2
    /\ trace (configure env ro args s w).2 = trace w ++ evs1 ++ evs2
    /\ out_data (configure env ro args s w).2 = out_data w
    /\ forall req, (configure env ro args s w).1 = Next req ->
         exists l, req = request ro s l (timestampers ro)
                   /\ Type_of <$> l = Some <$> built_types env ro args.
Proof.
  unfold configure. rewrite bind_run.
  destruct (emits_build_attestors env ro args w) as (evs1 & Ht1 & Hb1 & Ho1).
  pose proof (build_attestors_types env ro args w) as Hty.
  destruct (build_attestors env ro args w) as [[l|e|msg] w1]; cbn in *.
  2,3: exists evs1, []; rewrite app_nil_r;
       split_and!; [done|done|apply stops_at_failure_nil|done..].
  specialize (Hty l w1 eq_refl). rewrite bind_run.
  destruct (emits_bind_options ro l w1) as (evs2 & Ht2 & Hb2 & Ho2).
  destruct (bind_options_failure ro l w1) as (evs2' & Ht2' & Hs2).
  rewrite Ht2 in Ht2'. apply app_inv_head in Ht2' as <-.
  assert (Forall (setter_event (fun key => key ∈ built_types env ro args)) evs2)
    as Hb2'.
  { eapply Forall_impl; [exact Hb2|]. intros [] He; try done. cbn in *.
    rewrite Hty in He. apply list_elem_of_fmap in He as (key' & [= ->] & Hin).
    done. }
  exists evs1, evs2.
  destruct (bind_options ro l w1) as [[[]|e|msg] w2]; cbn in *;
    rewrite Ht2, Ht1, Ho2, Ho1, app_assoc;
    (split_and!; [done|done| |done|done|]).
  - intros key arg ret err Hin.
    by apply (stops_at_failure_next _ _ _ _ _ _ Hs2) in Hin.
  - intros req [= <-]. by exists l.
  - intros key arg ret err Hin. specialize (Hs2 _ _ _ _ Hin).
    destruct ret; cbn in *; congruence.
  - done.
  - intros key arg ret err Hin. specialize (Hs2 _ _ _ _ Hin).
    destruct ret; cbn in *; congruence.
  - done.
Qed.

Lemma configure_unknown env ro args s w :
  exists evs,
    trace (configure env ro args s w).2 = trace w ++ evs
    /\ stops_at_unknown (configure env ro args s w).1 evs.
Proof.
  unfold configure. rewrite bind_run.
  destruct (build_attestors_unknown env ro args w) as (evs1 & Ht1 & Hu).
  destruct (build_attestors env ro args w) as [[l|e|msg] w1]; cbn in *.
  - rewrite bind_run.
    destruct (emits_bind_options ro l w1) as (evs2 & Ht2 & Hb2 & _).
    exists (evs1 ++ evs2). split.
    + destruct (bind_options ro l w1) as [[[]|e|msg] w2]; cbn in *;
        by rewrite Ht2, Ht1, app_assoc.
    + intros name Hin. apply elem_of_app in Hin as [Hin|Hin].
      * by specialize (Hu _ Hin).
      * by apply (Forall_elem _ _ _ Hb2) in Hin.
  - exists evs1. split; [done|]. intros name Hin.
    specialize (Hu _ Hin). congruence.
  - exists evs1. split; [done|]. intros name Hin. by specialize (Hu _ Hin).
Qed.

Lemma prepared_unknown env ro args h :
  stops_at_unknown (prepared env ro args (start h)).1
    (trace (prepared env ro args (start h)).2).
Proof.
  rewrite prepare_run.
  destruct (loadSigners env (KeyOptions ro)) as [signers errors].
  destruct (signer_verdict signers errors) as [[msg logs]|s] eqn:Hv.
  - apply signer_verdict_inl in Hv as [_ Hlogs]. cbn.
    intros name Hin. trace_split Hin; [done|].
    by destruct (Forall_elem _ _ _ Hlogs Hin).
  - destruct (loadOutfile env (OutFilePath ro)) as [err|]; cbn.
    { intros name Hin. by trace_split Hin. }
    destruct (configure_unknown env ro args s (opened ro h)) as (evs & Ht & Hu).
    rewrite Ht. cbn. intros name Hin. trace_split Hin; try done. by apply Hu.
Qed.

Lemma Prelude_events env ro args pre :
  Prelude env ro args pre -> Forall prelude_event pre.
Proof.
  intros [signers errors logs _ _ Hlogs|s err _ _|s evs1 evs2 _ _ Hb1 Hb2].
  - constructor; [done|]. eapply Forall_impl; [exact Hlogs|]. by intros e [line ->].
  - by repeat constructor.
  - constructor; [done|]. constructor; [done|]. apply Forall_app. split.
    + eapply Forall_impl; [exact Hb1|]. by intros [].
    + eapply Forall_impl; [exact Hb2|]. by intros [].
Qed.

Lemma prepare_paths env ro args h :
  Prelude env ro args (trace (prepared env ro args (start h)).2)
  /\ out_data (prepared env ro args (start h)).2 = []
  /\ stops_at_failure (prepared env ro args (start h)).1
       (trace (prepared env ro args (start h)).2)
  /\ forall req, (prepared env ro args (start h)).1 = Next req ->
       exists s l rest,
         loadSigners env (KeyOptions ro) = ([s], [])
         /\ req = request ro s l (timestampers ro)
         /\ Type_of <$> l = Some <$> built_types env ro args
         /\ trace (prepared env ro args (start h)).2
            = EvLoadSigners :: EvLoadOutfile (OutFilePath ro) true :: rest.
Proof.
  rewrite prepare_run.
  destruct (loadSigners env (KeyOptions ro)) as [signers errors] eqn:Hload.
  destruct (signer_verdict signers errors) as [[msg logs]|s] eqn:Hv.
  - apply signer_verdict_inl in Hv as [Hcount Hlogs]. cbn.
    split_and!; [by econstructor|done| |done].
    intros key arg ret err Hin. exfalso.
    apply elem_of_cons in Hin as [?|Hin]; [done|].
    rewrite Forall_forall in Hlogs. by destruct (Hlogs _ Hin).
  - apply signer_verdict_inr in Hv as [-> ->].
    destruct (loadOutfile env (OutFilePath ro)) as [err|] eqn:Hopen; cbn.
    { split_and!; [by econstructor|done| |done].
      intros key arg ret err' Hin. exfalso.
      by repeat (apply elem_of_cons in Hin as [?|Hin]; [done|]);
        apply elem_of_nil in Hin. }
    destruct (configure_cases env ro args s (opened ro h))
      as (evs1 & evs2 & Hb1 & Hb2 & Hs & Ht & Ho & Hreq).
    rewrite Ht, Ho. cbn. split_and!; [by econstructor|done| |].
    + intros key arg ret err Hin. apply (Hs key arg ret err).
      repeat (apply elem_of_cons in Hin as [?|Hin]; [done|]).
      apply elem_of_app in Hin as [Hin|Hin]; [|done]. exfalso.
      rewrite Forall_forall in Hb1. by apply Hb1 in Hin.
    + intros req Hnext. destruct (Hreq req Hnext) as (l & -> & Hty).
      by exists s, l, (evs1 ++ evs2).
Qed.

(** ** The pipeline under the [defer] (lines 109-140) *)

(** Lines 109-140 in normal form: what the pipeline answers, the events it
    adds after the call of [witness.Run], and what reaches the output
    destination. *)
Lemma deliver_cases env ro req w :
  exists tail,
    let r := (defer out_Close (deliver env ro req) w).1 in
    let w' := (defer out_Close (deliver env ro req) w).2 in
    trace w' = trace w
               ++ EvRun req (succeeded (witness_Run env req (heap w))) :: tail
               ++ [EvClose]
    /\ heap w' = heap w
    /\ match witness_Run env req (heap w) with
       | inr err => r = Return (Some err) /\ tail = [] /\ out_data w' = out_data w
       | inl result =>
         match json_Marshal env (SignedEnvelope result) with
         | inr err =>
             r = Return (Some (Errorf_w "failed to marshal envelope: " err))
             /\ tail = [EvMarshal false] /\ out_data w' = out_data w
         | inl signedBytes =>
           match out_Write env signedBytes with
           | Some (n, err) =>
               r = Return (Some (Errorf_w "failed to write envelope to out file: " err))
               /\ tail = [EvMarshal true; EvWrite signedBytes (Some err)]
               /\ out_data w' = out_data w ++ take n signedBytes
           | None =>
               out_data w' = out_data w ++ signedBytes
               /\ if Enable (ArchivistaOptions ro)
                  then
                    let url := Url (ArchivistaOptions ro) in
                    match archivista_Store env url (SignedEnvelope result) with
                    | inr err =>
                        r = Return (Some (Errorf_w
                              "failed to store artifact in archivist: " err))
                        /\ tail = [EvMarshal true; EvWrite signedBytes None;
                                   EvStore url false]
                    | inl gitoid =>
                        r = Return None
                        /\ tail = [EvMarshal true; EvWrite signedBytes None;
                                   EvStore url true;
                                   EvLogInfo ("Stored in archivist as "
                                              +:+ gitoid +:+ newline)]
                    end
                  else r = Return None
                       /\ tail = [EvMarshal true; EvWrite signedBytes None]
           end
         end
       end.
Proof.
  unfold defer, deliver, call_witness_Run, call_json_Marshal, call_out_Write,
    call_archivista_Store.
  mrun. destruct (witness_Run env req (heap w)) as [result|err]; mrun.
  2: { exists []. cbn. by rewrite <- !app_assoc. }
  destruct (json_Marshal env (SignedEnvelope result)) as [signedBytes|err]; mrun.
  2: { eexists [_]. cbn. by rewrite <- !app_assoc. }
  destruct (out_Write env signedBytes) as [[n err]|]; mrun.
  { eexists [_; _]. cbn. by rewrite <- !app_assoc. }
  destruct (Enable (ArchivistaOptions ro)); mrun.
  2: { eexists [_; _]. cbn. by rewrite <- !app_assoc. }
  destruct (archivista_Store env _ _) as [gitoid|err]; mrun.
  - eexists [_; _; _; _]. cbn. by rewrite <- !app_assoc.
  - eexists [_; _; _]. cbn. by rewrite <- !app_assoc.
Qed.

(** * The properties of the specification *)

(** ** The signer resolver in a whole run *)

(** C6: When loading the signers produced at least one load error, the
    pipeline logs every one of the load errors, in order, returns the
    error "failed to load signers", and does nothing else: the trace holds
    the load and the log lines only, the heap and the output destination
    are as they were. *)
Theorem load_errors_all_reported env ro args h signers errors :
  loadSigners env (KeyOptions ro) = (signers, errors) ->
  0 < length errors ->
  runRun env ro args (start h)
  = (Return (Some (errorString "failed to load signers")),
     {| heap := h; out_data := [];
        trace := EvLoadSigners :: (EvLogError ∘ Error <$> errors) |}).
Proof.
  intros Hload Hlen. rewrite runRun_prepared, prepare_run, Hload.
  destruct errors as [|err errors]; [cbn in Hlen; lia|]. reflexivity.
Qed.

Lemma load_errors_all_reported_witness :
  runRun (with_signers (["key.pem"], key_errors)) demo_ro ["make"] (start [])
  = (Return (Some (errorString "failed to load signers")),
     {| heap := []; out_data := [];
        trace := [EvLoadSigners;
                  EvLogError "open a.pem: no such file or directory";
                  EvLogError "spiffe: no workload socket"] |}).
Proof.
  apply (load_errors_all_reported (with_signers (["key.pem"], key_errors))
           demo_ro ["make"] [] ["key.pem"] key_errors).
  - reflexivity.
  - simpl. lia.
Defined.

(** C5, as amended: When the number of loaded signers is not one, the
    pipeline returns an error after the load and the log lines only: the
    output destination is not opened, no attestor is constructed and
    nothing runs.  When moreover no load error occurred, the error is
    "no signers found" for zero signers and "only one signer is supported"
    for two or more. *)
Theorem signer_count_fails_before_open env ro args h signers errors :
  loadSigners env (KeyOptions ro) = (signers, errors) ->
  length signers <> 1 ->
  exists msg,
    (runRun env ro args (start h)).1 = Return (Some (errorString msg))
    /\ (errors = [] -> length signers = 0 -> msg = "no signers found")
    /\ (errors = [] -> 2 <= length signers -> msg = "only one signer is supported")
    /\ Forall signer_event (trace (runRun env ro args (start h)).2)
    /\ heap (runRun env ro args (start h)).2 = h
    /\ out_data (runRun env ro args (start h)).2 = [].
Proof.
  intros Hload Hlen. rewrite runRun_prepared, prepare_run, Hload.
  destruct errors as [|err errors].
  - destruct signers as [|s [|s' signers]]; [|done|]; cbn.
    + eexists. split_and!; [done|done| |by repeat constructor|done|done].
      intros _ Hge. cbn in Hge. lia.
    + eexists. split_and!; [done| |done|by repeat constructor|done|done].
      intros _ [=].
  - eexists. cbn. split_and!; try done.
    constructor; [done|]. constructor; [done|].
    apply Forall_fmap, Forall_true. done.
Qed.

Lemma signer_count_fails_before_open_witness :
  exists msg,
    (runRun (with_signers (["a.pem"; "b.pem"], [])) demo_ro ["make"]
       (start [])).1 = Return (Some (errorString msg))
    /\ msg = "only one signer is supported".
Proof.
  destruct (signer_count_fails_before_open
              (with_signers (["a.pem"; "b.pem"], [])) demo_ro ["make"] []
              ["a.pem"; "b.pem"] [])
    as (msg & Hr & _ & Hmany & _).
  - reflexivity.
  - simpl. lia.
  - exists msg. split; [exact Hr|]. apply Hmany; [reflexivity | simpl; lia].
Defined.

(** C5, as stated, fails: with zero loadable signers and a load error, the
    pipeline does not return the no-signer error. *)
Lemma no_signer_error_counterexample :
  let env := with_signers ([], key_errors) in
  length (loadSigners env (KeyOptions demo_ro)).1 = 0
  /\ (runRun env demo_ro ["make"] (start [])).1
     = Return (Some (errorString "failed to load signers"))
  /\ (runRun env demo_ro ["make"] (start [])).1
     <> Return (Some (errorString "no signers found")).
Proof. split_and!; [reflexivity | reflexivity | discriminate]. Qed.

(** ** The order of the attestor list *)

(** C1, as amended: When every requested pluggable attestor resolves,
    the builder answers the list product, material, then command-run if
    and only if the argument list is non-empty, then the pluggable
    attestors in configuration order, with or without arguments. *)
Theorem attestor_list_order env ro args w :
  Forall (fun name => is_Some (registry env name)) (Attestations ro) ->
  exists l w',
    build_attestors env ro args w = (Next l, w')
    /\ Type_of <$> l
       = Some <$> [product_Type; material_Type]
                  ++ match args with [] => [] | _ => [commandrun_Type] end
                  ++ omap (registry env) (Attestations ro).
Proof.
  intros Hall.
  destruct (build_attestors_resolved env ro args w Hall) as (l & w' & Hrun).
  exists l, w'. split; [done|].
  rewrite (build_attestors_types _ _ _ _ _ _ Hrun). unfold built_types.
  by destruct args.
Qed.

Lemma attestor_list_order_witness :
  exists l w',
    build_attestors demo_env demo_ro ["make"; "all"] (start []) = (Next l, w')
    /\ Type_of <$> l
       = [Some product_Type; Some material_Type; Some commandrun_Type; Some git_Type].
Proof.
  destruct (attestor_list_order demo_env demo_ro ["make"; "all"] (start []))
    as (l & w' & Hrun & Hty).
  - apply (bool_decide_unpack _). vm_compute. reflexivity.
  - exists l, w'. split; [exact Hrun | exact Hty].
Defined.

(** C1, as stated, fails: without arguments and with [git] requested the
    list is product, material, git, which is not material, product; with
    arguments it starts with product, not with material. *)
Lemma attestor_order_counterexample :
  (exists l w',
     build_attestors demo_env demo_ro [] (start []) = (Next l, w')
     /\ Type_of <$> l = [Some product_Type; Some material_Type; Some git_Type]
     /\ Type_of <$> l <> Some <$> spec_attestor_order [] [git_Type])
  /\ (exists l w',
        build_attestors demo_env demo_ro ["make"] (start []) = (Next l, w')
        /\ Type_of <$> l <> Some <$> spec_attestor_order ["make"] [git_Type]).
Proof.
  split.
  - eexists _, _. split; [vm_compute; reflexivity|].
    split; [reflexivity|]. intros Heq. vm_compute in Heq. discriminate Heq.
  - eexists _, _. split; [vm_compute; reflexivity|].
    intros Heq. vm_compute in Heq. discriminate Heq.
Qed.

(** ** The orchestrator and the sink *)

(** C4: If [witness.Run] answers an error, the pipeline returns that very
    error, nothing has reached the output destination, and the trace holds
    no marshal, write or store; and whenever the trace holds a marshal,
    a write or a store, it comes after a call of [witness.Run] that
    answered a result. *)
Theorem run_error_writes_nothing env ro args h :
  let r := (runRun env ro args (start h)).1 in
  let w := (runRun env ro args (start h)).2 in
  (forall req, EvRun req false ∈ trace w ->
     exists err,
       witness_Run env req (heap w) = inr err
       /\ r = Return (Some err)
       /\ out_data w = []
       /\ Forall (fun e => ~ sink_event e) (trace w))
  /\ (forall e, e ∈ trace w -> sink_event e ->
      exists pre req result post,
        trace w = pre ++ EvRun req true :: post
        /\ witness_Run env req (heap w) = inl result
        /\ e ∈ post).
Proof.
  rewrite runRun_prepared.
  destruct (prepare_paths env ro args h) as (Hpre & Ho & _ & _).
  apply Prelude_events in Hpre.
  destruct (prepared env ro args (start h)) as [[req|e|msg] w2]; cbn in *.
  2,3: split; [intros req Hin|intros [] Hin Hsink; try done]; exfalso;
       by apply (Forall_elem _ _ _ Hpre) in Hin.
  destruct (deliver_cases env ro req w2) as (tail & Ht & Hh & Hc).
  cbv zeta in *. rewrite Ht, Hh. split.
  - intros req' Hin. deliver_split Hc; cbn in *; trace_split Hin;
      try (by apply (Forall_elem _ _ _ Hpre) in Hin); try done.
    injection Hin as ->. eexists. split_and!; [done|done|congruence|].
    apply Forall_app. split.
    + eapply Forall_impl; [exact Hpre|]. intros []; cbn; tauto.
    + repeat constructor; cbn; tauto.
  - intros ev Hin Hsink. deliver_split Hc; cbn in *; trace_split Hin; subst;
      try (by apply (Forall_elem _ _ _ Hpre) in Hin; destruct ev); try done.
    all: eexists (trace w2), req, _, _; (split_and!; [done|done|]);
      repeat constructor.
Qed.

Lemma run_error_writes_nothing_witness :
  (runRun run_fails_env demo_ro ["make"] (start [])).1
  = Return (Some (errorString "timestamp authority unreachable"))
  /\ out_data (runRun run_fails_env demo_ro ["make"] (start [])).2 = [].
Proof.
  destruct (run_error_writes_nothing run_fails_env demo_ro ["make"] []) as [Hfail _].
  destruct (Hfail
    (request demo_ro "key.pem"
       [Some (Instance product_Type 0); Some (Instance material_Type 1);
        Some (Instance commandrun_Type 2); Some (Instance git_Type 3)]
       [NewTimestamper "https://tsa.example"]))
    as (err & Hrun & Hr & Ho & _).
  - vm_compute. repeat constructor.
  - split; [|exact Ho]. vm_compute in Hrun. injection Hrun as <-. exact Hr.
Defined.

(** ** The publisher *)

(** C7: A store is attempted only when publishing is enabled and only
    after a complete write of the envelope, which is then what the output
    destination holds; when the store fails the pipeline returns the
    publish error, while the output destination holds exactly what the same
    run with publishing disabled, which returns no error, leaves there;
    with publishing disabled no store is attempted and a run that wrote
    the envelope returns no error. *)
Theorem publish_after_write env ro args h :
  let r := (runRun env ro args (start h)).1 in
  let w := (runRun env ro args (start h)).2 in
  (forall url ok, EvStore url ok ∈ trace w ->
     Enable (ArchivistaOptions ro) = true
     /\ exists pre data post,
          trace w = pre ++ EvWrite data None :: post
          /\ EvStore url ok ∈ post
          /\ out_data w = data)
  /\ (forall url, EvStore url false ∈ trace w ->
      (exists err,
         r = Return (Some (Errorf_w "failed to store artifact in archivist: " err)))
      /\ (runRun env (unpublished ro) args (start h)).1 = Return None
      /\ out_data w = out_data (runRun env (unpublished ro) args (start h)).2)
  /\ (Enable (ArchivistaOptions ro) = false ->
      (forall url ok, EvStore url ok ∉ trace w)
      /\ (forall data, EvWrite data None ∈ trace w -> r = Return None)).
Proof.
  rewrite !runRun_prepared.
  change (prepared env (unpublished ro) args) with (prepared env ro args).
  destruct (prepare_paths env ro args h) as (Hpre & Ho & _ & _).
  apply Prelude_events in Hpre.
  destruct (prepared env ro args (start h)) as [[req|e|msg] w2]; cbn in *.
  2,3: split_and!; [intros url ok Hin|intros url Hin|intros _; split];
       try (exfalso; by apply (Forall_elem _ _ _ Hpre) in Hin);
       [intros url ok Hin|intros data Hin];
       by apply (Forall_elem _ _ _ Hpre) in Hin.
  destruct (deliver_cases env ro req w2) as (tail & Ht & Hh & Hc).
  destruct (deliver_cases env (unpublished ro) req w2) as (tail' & Ht' & Hh' & Hc').
  cbv zeta in *. rewrite Ht. rewrite Ho in Hc, Hc'. split_and!.
  - intros url ok Hin. deliver_split Hc; cbn in *; trace_split Hin;
      try (by apply (Forall_elem _ _ _ Hpre) in Hin); try done.
    all: split; [done|]; eexists (trace w2 ++ [EvRun req true; EvMarshal true]), _, _;
      rewrite <- app_assoc; (split_and!; [done| |done]);
      rewrite Hin; left.
  - intros url Hin. deliver_split Hc; cbn in *; trace_split Hin;
      try (by apply (Forall_elem _ _ _ Hpre) in Hin); try done.
    destruct_and?. split_and!; [by eexists|done|congruence].
  - intros Hoff. rewrite Hoff in Hc. split.
    + intros url ok Hin. deliver_split Hc; cbn in *; trace_split Hin;
        try (by apply (Forall_elem _ _ _ Hpre) in Hin); done.
    + intros data Hin. deliver_split Hc; cbn in *; trace_split Hin;
        try (by apply (Forall_elem _ _ _ Hpre) in Hin); done.
Qed.

Lemma publish_after_write_witness :
  (runRun store_fails_env demo_ro ["make"] (start [])).1
  = Return (Some (Errorf_w "failed to store artifact in archivist: "
                    (errorString "503 service unavailable")))
  /\ out_data (runRun store_fails_env demo_ro ["make"] (start [])).2
     = out_data (runRun store_fails_env (unpublished demo_ro) ["make"] (start [])).2.
Proof.
  destruct (publish_after_write store_fails_env demo_ro ["make"] [])
    as (_ & Hfail & _).
  destruct (Hfail "https://archivista.example") as (_ & _ & Hout).
  - vm_compute. repeat constructor.
  - split; [reflexivity | exact Hout].
Defined.

(** ** The option binder in a whole run *)

Lemma Prelude_setters env ro args pre key arg ret err :
  Prelude env ro args pre ->
  EvSetter key arg ret err ∈ pre -> key ∈ built_types env ro args.
Proof.
  intros [signers errors logs _ _ Hlogs|s e _ _|s evs1 evs2 _ _ Hb1 Hb2] Hin;
    trace_split Hin; try done.
  - by destruct (Forall_elem _ _ _ Hlogs Hin).
  - by apply (Forall_elem _ _ _ Hb1) in Hin.
  - by apply (Forall_elem _ _ _ Hb2) in Hin.
Qed.

Lemma failing_setter_exit env ro args h key arg ret err :
  EvSetter key arg ret (Some err) ∈ trace (runRun env ro args (start h)).2 ->
  (runRun env ro args (start h)).1 = setter_exit ret err.
Proof.
  rewrite runRun_prepared.
  destruct (prepare_paths env ro args h) as (_ & _ & Hs & _).
  destruct (prepared env ro args (start h)) as [[req|e|msg] w2]; cbn in *.
  - destruct (deliver_cases env ro req w2) as (tail & Ht & _ & Hc).
    cbv zeta in *. rewrite Ht. intros Hin. exfalso.
    deliver_split Hc; cbn in *; trace_split Hin; try done.
    all: by apply (stops_at_failure_next _ _ _ _ _ _ Hs) in Hin.
  - intros Hin. specialize (Hs _ _ _ _ Hin). destruct ret; cbn in *; congruence.
  - intros Hin. specialize (Hs _ _ _ _ Hin). destruct ret; cbn in *; congruence.
Qed.

(** A failing setter ends the run before [witness.Run] is called. *)
Lemma setter_failure_runs_nothing env ro args h key arg ret err :
  EvSetter key arg ret (Some err) ∈ trace (runRun env ro args (start h)).2 ->
  forall req ok, EvRun req ok ∉ trace (runRun env ro args (start h)).2.
Proof.
  intros Hin req ok Hrun.
  pose proof (failing_setter_exit _ _ _ _ _ _ _ _ Hin) as Hexit.
  revert Hin Hrun Hexit. rewrite runRun_prepared.
  destruct (prepare_paths env ro args h) as (Hpre & _ & Hs & _).
  apply Prelude_events in Hpre.
  destruct (prepared env ro args (start h)) as [[req'|e|msg] w2]; cbn in *.
  2,3: intros _ Hrun _; by apply (Forall_elem _ _ _ Hpre) in Hrun.
  destruct (deliver_cases env ro req' w2) as (tail & Ht & _ & Hc).
  cbv zeta in *. rewrite Ht. intros Hin _ _.
  deliver_split Hc; cbn in *; trace_split Hin; try done.
  all: by apply (stops_at_failure_next _ _ _ _ _ _ Hs) in Hin.
Qed.

(** A name the registry does not know ends the run with the error of
    line 91, which names it. *)
Lemma unknown_attestor_exit env ro args h name :
  EvNotFound name ∈ trace (runRun env ro args (start h)).2 ->
  (runRun env ro args (start h)).1
  = Return (Some (Errorf_w "failed to create attestors := "
                    (errorString ("attestor not found: " +:+ name)))).
Proof.
  rewrite runRun_prepared.
  pose proof (prepared_unknown env ro args h) as Hu.
  destruct (prepared env ro args (start h)) as [[req|e|msg] w2]; cbn in *.
  - destruct (deliver_cases env ro req w2) as (tail & Ht & _ & Hc).
    cbv zeta in *. rewrite Ht. intros Hin. exfalso.
    deliver_split Hc; cbn in *; trace_split Hin; try done.
    all: by specialize (Hu _ Hin).
  - intros Hin. specialize (Hu _ Hin). congruence.
  - intros Hin. by specialize (Hu _ Hin).
Qed.

(** C8: When a setter answers an error, the error branch calls [Type()]
    on the value that setter answered, not on the attestor it was given:
    with a nil attestor answered the pipeline panics on the nil interface
    instead of returning the configuration error; with a non-nil attestor
    answered the error names that attestor's type. *)
Theorem setter_error_branch env ro args h :
  let r := (runRun env ro args (start h)).1 in
  let w := (runRun env ro args (start h)).2 in
  (forall key arg err,
     EvSetter key arg None (Some err) ∈ trace w ->
     r = Panic "invalid memory address or nil pointer dereference")
  /\ (forall key arg a err,
      EvSetter key arg (Some a) (Some err) ∈ trace w ->
      r = Return (Some (Errorf_w ("failed to set attestor option for "
                                  +:+ inst_type a +:+ ": ") err))).
Proof.
  split.
  - intros key arg err Hin. by apply failing_setter_exit in Hin.
  - intros key arg a err Hin. by apply failing_setter_exit in Hin.
Qed.

Lemma setter_error_branch_witness :
  (runRun demo_env rejecting_ro ["make"] (start [])).1
  = Panic "invalid memory address or nil pointer dereference".
Proof.
  destruct (setter_error_branch demo_env rejecting_ro ["make"] []) as [Hnil _].
  apply (Hnil material_Type (Some (Instance material_Type 1))
           (errorString "unknown hash algorithm")).
  vm_compute. repeat constructor.
Defined.

(** ** The output destination and the attestor stages *)

Lemma Prelude_open env ro args pre :
  Prelude env ro args pre ->
  (forall e, e ∈ pre -> setup_failure e ->
     exists rest,
       pre = EvLoadSigners :: EvLoadOutfile (OutFilePath ro) true :: rest
       /\ e ∈ rest)
  /\ ((forall path ok, EvLoadOutfile path ok ∉ pre)
      <-> ~ exists s, loadSigners env (KeyOptions ro) = ([s], [])).
Proof.
  intros [signers errors logs Hload Hcount Hlogs|s err Hload Hopen
         |s evs1 evs2 Hload Hopen Hb1 Hb2].
  - split; [|split].
    + intros e Hin Hfail. exfalso. trace_split Hin; subst; [done|].
      by destruct (Forall_elem _ _ _ Hlogs Hin) as [line ->].
    + intros _ [s Hs]. rewrite Hload in Hs. injection Hs as -> ->.
      cbn in Hcount. lia.
    + intros _ path ok Hin. trace_split Hin; [done|].
      by destruct (Forall_elem _ _ _ Hlogs Hin) as [line [=]].
  - split; [|split].
    + intros e Hin Hfail. exfalso. by trace_split Hin; subst.
    + intros Hno. exfalso. apply (Hno (OutFilePath ro) false). right. left.
    + intros Hnot. exfalso. apply Hnot. by exists s.
  - split; [|split].
    + intros e Hin Hfail. exists (evs1 ++ evs2). split; [done|].
      apply elem_of_cons in Hin as [->|Hin]; [done|].
      by apply elem_of_cons in Hin as [->|Hin].
    + intros Hno. exfalso. apply (Hno (OutFilePath ro) true). right. left.
    + intros Hnot. exfalso. apply Hnot. by exists s.
Qed.

(** C9: A failure of the attestor stages comes after the output
    destination has been opened successfully; and a run leaves the output
    destination untouched, not even attempting to open it, exactly when
    signer resolution did not yield one signer without load errors. *)
Theorem setup_failures_after_open env ro args h :
  let w := (runRun env ro args (start h)).2 in
  (forall e, e ∈ trace w -> setup_failure e ->
     exists rest,
       trace w = EvLoadSigners :: EvLoadOutfile (OutFilePath ro) true :: rest
       /\ e ∈ rest)
  /\ ((forall path ok, EvLoadOutfile path ok ∉ trace w)
      <-> ~ exists s, loadSigners env (KeyOptions ro) = ([s], [])).
Proof.
  rewrite runRun_prepared.
  destruct (prepare_paths env ro args h) as (Hpre & _ & _ & Hreq).
  destruct (prepared env ro args (start h)) as [[req|e|msg] w2] eqn:Hprep; cbn in *.
  { destruct (Hreq req eq_refl) as (s & l & rest & Hload & _ & _ & Hw2).
    destruct (deliver_cases env ro req w2) as (tail & Ht & _ & Hc).
    cbv zeta in *. rewrite Ht, Hw2. split.
    - intros ev Hin Hfail.
      exists (rest ++ EvRun req (succeeded (witness_Run env req (heap w2)))
                   :: tail ++ [EvClose]).
      split; [done|].
      deliver_split Hc; cbn in *; trace_split Hin; subst; try done.
      all: apply elem_of_app; by left.
    - split.
      + intros Hno. exfalso. apply (Hno (OutFilePath ro) true).
        right. left.
      + intros Hnot. exfalso. apply Hnot. by exists s. }
  all: by apply (Prelude_open env ro args).
Qed.

(** ** Setters bound to a type no attestor has *)

Lemma prepare_without key env ro args w :
  key ∉ built_types env ro args ->
  prepared env (without key ro) args w = prepared env ro args w.
Proof.
  intros Hnot. unfold prepared, prepare. rewrite !bind_run.
  change (resolve_signers env (without key ro)) with (resolve_signers env ro).
  destruct (resolve_signers env ro w) as [[signers|e|msg] w0]; [|done..].
  rewrite !bind_run.
  change (open_out env (without key ro)) with (open_out env ro).
  destruct (open_out env ro w0) as [[[]|e|msg] w1]; [|done..].
  cbv zeta. rewrite !bind_run.
  change (build_attestors env (without key ro) args)
    with (build_attestors env ro args).
  destruct (build_attestors env ro args w1) as [[l|e|msg] w2] eqn:Hbuild; [|done..].
  rewrite !bind_run, bind_options_without; [done|].
  rewrite (build_attestors_types _ _ _ _ _ _ Hbuild).
  intros Hin. apply list_elem_of_fmap in Hin as (key' & [= ->] & Hin). done.
Qed.

(** C10: Setters bound to a type name that is the type of no attestor of
    the built list are never applied, and the run is the very run of the
    same options without them: same answer, same trace, same output. *)
Theorem unmatched_setters_skipped env ro args h key :
  key ∉ built_types env ro args ->
  runRun env ro args (start h) = runRun env (without key ro) args (start h)
  /\ forall arg ret err,
       EvSetter key arg ret err ∉ trace (runRun env ro args (start h)).2.
Proof.
  intros Hnot. split.
  - rewrite !runRun_prepared, prepare_without by done. reflexivity.
  - intros arg ret err. rewrite runRun_prepared.
    destruct (prepare_paths env ro args h) as (Hpre & _ & _ & _).
    destruct (prepared env ro args (start h)) as [[req|e|msg] w2]; cbn in *.
    2,3: intros Hin; by apply (Prelude_setters _ _ _ _ _ _ _ _ Hpre) in Hin.
    destruct (deliver_cases env ro req w2) as (tail & Ht & _ & Hc).
    cbv zeta in *. rewrite Ht. intros Hin.
    deliver_split Hc; cbn in *; trace_split Hin; try done.
    all: by apply (Prelude_setters _ _ _ _ _ _ _ _ Hpre) in Hin.
Qed.

Lemma unmatched_setters_skipped_witness :
  runRun demo_env sbom_ro ["make"] (start [])
  = runRun demo_env (without sbom_Type sbom_ro) ["make"] (start [])
  /\ (runRun demo_env sbom_ro ["make"] (start [])).1 = Return None.
Proof.
  destruct (unmatched_setters_skipped demo_env sbom_ro ["make"] [] sbom_Type)
    as [Hsame _].
  - apply (bool_decide_unpack _). vm_compute. reflexivity.
  - split; [exact Hsame | reflexivity].
Defined.

Lemma setup_failures_after_open_witness :
  exists rest,
    trace (runRun demo_env unknown_ro ["make"] (start [])).2
    = EvLoadSigners :: EvLoadOutfile "out.json" true :: rest
    /\ EvNotFound "sbom" ∈ rest.
Proof.
  destruct (setup_failures_after_open demo_env unknown_ro ["make"] [])
    as [Hafter _].
  apply (Hafter (EvNotFound "sbom")).
  - vm_compute. repeat constructor.
  - exact I.
Defined.

(** ** Closing the output destination *)

Lemma closes_app t1 t2 : closes (t1 ++ t2) = closes t1 + closes t2.
Proof. unfold closes. by rewrite List.filter_app, length_app. Qed.

Lemma closes_prelude pre : Forall prelude_event pre -> closes pre = 0.
Proof.
  induction 1 as [|e pre He _ IH]; [done|].
  unfold closes in *. cbn. by destruct e.
Qed.

(** Once the pipeline has reached the [defer], that is once it calls
    [witness.Run], the output destination is closed exactly once; on the
    exits before it, it is not closed. *)
Lemma closed_once_after_defer env ro args h :
  let w := (runRun env ro args (start h)).2 in
  (forall req ok, EvRun req ok ∈ trace w -> closes (trace w) = 1)
  /\ ((forall req ok, EvRun req ok ∉ trace w) -> closes (trace w) = 0).
Proof.
  rewrite runRun_prepared.
  destruct (prepare_paths env ro args h) as (Hpre & _ & _ & _).
  apply Prelude_events in Hpre.
  destruct (prepared env ro args (start h)) as [[req|e|msg] w2]; cbn in *.
  2,3: split; [intros req ok Hin; by apply (Forall_elem _ _ _ Hpre) in Hin
              |intros _; by apply closes_prelude].
  destruct (deliver_cases env ro req w2) as (tail & Ht & _ & Hc).
  cbv zeta in *. rewrite Ht. split.
  - intros _ _ _. rewrite closes_app, closes_prelude by done.
    by deliver_split Hc.
  - intros Hno. exfalso. eapply Hno. apply elem_of_app. right. left.
Qed.

(** A failure of the attestor stages leaves the output destination
    opened and not closed: no exit before line 109 closes it. *)
Lemma setup_failure_leaves_open env ro args h e :
  e ∈ trace (runRun env ro args (start h)).2 ->
  setup_failure e ->
  (forall req ok, EvRun req ok ∉ trace (runRun env ro args (start h)).2)
  /\ closes (trace (runRun env ro args (start h)).2) = 0.
Proof.
  intros Hin Hfail.
  assert (forall req ok, EvRun req ok ∉ trace (runRun env ro args (start h)).2)
    as Hnorun.
  { destruct e as [| | | | |name|key arg ret [err|]| | | | |]; try done.
    - pose proof (unknown_attestor_exit _ _ _ _ _ Hin) as Hexit.
      revert Hin Hexit. rewrite runRun_prepared.
      pose proof (prepared_unknown env ro args h) as Hu.
      destruct (prepare_paths env ro args h) as (Hpre & _ & _ & _).
      apply Prelude_events in Hpre.
      destruct (prepared env ro args (start h)) as [[req'|e|msg] w2]; cbn in *.
      2,3: intros _ _ req ok Hrun; by apply (Forall_elem _ _ _ Hpre) in Hrun.
      destruct (deliver_cases env ro req' w2) as (tail & Ht & _ & Hc).
      cbv zeta in *. rewrite Ht. intros Hin _.
      deliver_split Hc; cbn in *; trace_split Hin; try done.
      all: by specialize (Hu _ Hin).
    - by apply (setter_failure_runs_nothing _ _ _ _ _ _ _ _ Hin). }
  split; [done|]. by apply closed_once_after_defer.
Qed.

(** C3: The failing inputs: with a requested attestor the registry does
    not know, and with a setter that rejects its option (answering its
    attestor or nil), the pipeline returns (or panics) after the output
    destination was opened and without closing it, the [defer] of line 109
    not having been reached. *)
Theorem out_left_open_on_setup_failure :
  let unknown := runRun demo_env unknown_ro ["make"] (start []) in
  let failing := runRun demo_env failing_ro ["make"] (start []) in
  let rejecting := runRun demo_env rejecting_ro ["make"] (start []) in
  (unknown.1 = Return (Some (Errorf_w "failed to create attestors := "
                               (errorString "attestor not found: sbom")))
   /\ opened_ok (trace unknown.2) = true
   /\ closes (trace unknown.2) = 0)
  /\ (failing.1 = Return (Some (Errorf_w
                       ("failed to set attestor option for " +:+ commandrun_Type +:+ ": ")
                       (errorString "unknown option")))
      /\ opened_ok (trace failing.2) = true
      /\ closes (trace failing.2) = 0)
  /\ (rejecting.1 = Panic "invalid memory address or nil pointer dereference"
      /\ opened_ok (trace rejecting.2) = true
      /\ closes (trace rejecting.2) = 0).
Proof. by vm_compute. Qed.

(** ** What the orchestrator is handed *)

(** The inner loop does apply the setters in registration order to its
    loop variable. *)
Lemma apply_setters_chain key setters attestor w :
  chain_ok setters attestor (heap w) ->
  (apply_setters key setters attestor w).1 = Next (chain setters attestor (heap w)).1
  /\ heap (apply_setters key setters attestor w).2 = (chain setters attestor (heap w)).2.
Proof.
  revert attestor w. induction setters as [|setter setters IH]; intros attestor w; cbn.
  - done.
  - rewrite bind_run. unfold call_setter.
    destruct (setter attestor (heap w)) as [[attestor' err] h']. cbn.
    intros [-> Hok]. by apply IH.
Qed.

(** The list handed to [witness.Run] has the types the builder gave it. *)
Lemma executed_types env ro args h req ok :
  EvRun req ok ∈ trace (runRun env ro args (start h)).2 ->
  Type_of <$> RunWithAttestors req = Some <$> built_types env ro args.
Proof.
  rewrite runRun_prepared.
  destruct (prepare_paths env ro args h) as (Hpre & _ & _ & Hreq).
  apply Prelude_events in Hpre.
  destruct (prepared env ro args (start h)) as [[req'|e|msg] w2]; cbn in *.
  2,3: intros Hrun; by apply (Forall_elem _ _ _ Hpre) in Hrun.
  destruct (Hreq req' eq_refl) as (s & l & rest & _ & -> & Hty & _).
  destruct (deliver_cases env ro (request ro s l (timestampers ro)) w2)
    as (tail & Ht & _ & Hc).
  cbv zeta in *. rewrite Ht. intros Hin.
  deliver_split Hc; cbn in *; trace_split Hin; try done.
  all: try (by apply (Forall_elem _ _ _ Hpre) in Hin).
  all: by injection Hin as -> _.
Qed.

(** C2: The failing input: two setters bound to the product type, each
    answering a new configured instance.  Both are applied in order, the
    second to what the first answered, and the last answer (at address 5)
    carries both options; the list handed to [witness.Run] still holds the
    product attestor of address 0, which carries none. *)
Theorem setter_result_not_written_back :
  let run := runRun demo_env fresh_ro ["make"] (start []) in
  let product := Instance product_Type in
  run.1 = Return None
  /\ setter_calls (trace run.2)
     = [(product_Type, Some (product 0), Some (product 4));
        (product_Type, Some (product 4), Some (product 5))]
  /\ heap run.2 !! 5
     = Some (Object [] false [("include-glob", "*.go"); ("exclude-glob", "vendor/*")])
  /\ executed (trace run.2)
     = [[Some (product 0); Some (Instance material_Type 1);
         Some (Instance commandrun_Type 2); Some (Instance git_Type 3)]]
  /\ heap run.2 !! 0 = Some new_object.
Proof. by vm_compute. Qed.


(** * Further properties of [runRun] *)

(** ** What stands behind the events *)

Lemma emits_alloc_justified env ro ty o : emits (justified env ro) (alloc ty o).
Proof.
  intros w. exists [EvNew (Instance ty (length (heap w)))]. simpl.
  split_and!; [done| |done]. by repeat constructor.
Qed.

Lemma emits_attestation_Attestors_justified env ro names :
  (forall name, name ∈ names -> name ∈ Attestations ro) ->
  emits (justified env ro) (attestation_Attestors env names).
Proof.
  induction names as [|name names IH]; intros Hsub; simpl; [auto with emits|].
  destruct (registry env name) as [ty|] eqn:Hreg.
  - apply emits_bind; [apply emits_alloc_justified|].
    intros a. apply emits_bind; [|auto with emits].
    apply IH. intros name' Hin. apply Hsub. by right.
  - apply emits_bind; [|auto with emits].
    apply emits_event. split; [|done]. apply Hsub. left.
Qed.

Lemma emits_build_attestors_justified env ro args :
  emits (justified env ro) (build_attestors env ro args).
Proof.
  pose proof (emits_alloc_justified env ro) as Halloc.
  unfold build_attestors, product_New, material_New, commandrun_New.
  apply emits_bind; [apply Halloc|]. intros p.
  apply emits_bind; [apply Halloc|]. intros m.
  apply emits_bind.
  { destruct (0 <? length args); [|auto with emits].
    apply emits_bind; [apply Halloc|]. auto with emits. }
  intros attestors.
  apply emits_bind; [by apply emits_attestation_Attestors_justified|]. intros r.
  apply emits_bind; auto with emits.
Qed.

Lemma emits_apply_setters_justified env ro key setters suffix attestor :
  AttestorOptSetters ro !! key = Some setters ->
  (forall setter, setter ∈ suffix -> setter ∈ setters) ->
  emits (justified env ro) (apply_setters key suffix attestor).
Proof.
  intros Hkey. revert attestor.
  induction suffix as [|setter suffix IH]; intros attestor Hsub; simpl;
    [auto with emits|].
  apply emits_bind.
  - intros w. unfold call_setter.
    destruct (setter attestor (heap w)) as [[ret err] h'] eqn:Hcall. cbn.
    eexists [_]. split_and!; [done| |done]. constructor; [|done]. cbn.
    exists setters, setter, (heap w). split_and!; [done| |by rewrite Hcall].
    apply Hsub. left.
  - intros [a [err|]]; [apply emits_bind; auto with emits|].
    apply IH. intros setter' Hin. apply Hsub. by right.
Qed.

Lemma emits_bind_options_justified env ro attestors :
  emits (justified env ro) (bind_options ro attestors).
Proof.
  apply emits_for_range_in. intros attestor _. unfold bind_attestor.
  destruct attestor as [a|]; cbn; [|apply emits_panic_bind].
  apply emits_ret_bind.
  destruct (AttestorOptSetters ro !! inst_type a) as [setters|] eqn:Hkey;
    [|apply emits_ret].
  apply emits_bind; [|intros _; apply emits_ret].
  by eapply emits_apply_setters_justified.
Qed.

Lemma emits_configure_justified env ro args s :
  emits (justified env ro) (configure env ro args s).
Proof.
  unfold configure.
  apply emits_bind; [apply emits_build_attestors_justified|]. intros l.
  apply emits_bind; [apply emits_bind_options_justified|]. auto with emits.
Qed.

(** Every event of a run is justified. *)
Lemma trace_justified env ro args h :
  Forall (justified env ro) (trace (runRun env ro args (start h)).2).
Proof.
  assert (Forall (justified env ro) (trace (prepared env ro args (start h)).2))
    as Hpre.
  { rewrite prepare_run.
    destruct (loadSigners env (KeyOptions ro)) as [signers errors].
    destruct (signer_verdict signers errors) as [[msg logs]|s] eqn:Hv.
    - apply signer_verdict_inl in Hv as [_ Hlogs]. cbn.
      constructor; [done|]. eapply Forall_impl; [exact Hlogs|].
      by intros e [line ->].
    - destruct (loadOutfile env (OutFilePath ro)) as [err|]; cbn;
        [by repeat constructor|].
      destruct (emits_configure_justified env ro args s (opened ro h))
        as (evs & Ht & Hj & _).
      rewrite Ht. cbn. by repeat constructor. }
  revert Hpre. rewrite runRun_prepared.
  destruct (prepared env ro args (start h)) as [[req|e|msg] w2]; cbn; [|done..].
  intros Hpre. destruct (deliver_cases env ro req w2) as (tail & Ht & _ & Hc).
  cbv zeta in *. rewrite Ht. apply Forall_app. split; [done|].
  deliver_split Hc; by repeat constructor.
Qed.

(** ** Where a run can end *)

Lemma apply_setters_result key setters attestor w :
  (exists a, (apply_setters key setters attestor w).1 = Next a)
  \/ exists arg ret err,
       EvSetter key arg ret (Some err) ∈ trace (apply_setters key setters attestor w).2.
Proof.
  revert attestor w. induction setters as [|setter setters IH]; intros attestor w; simpl.
  - left. by eexists.
  - rewrite bind_run. unfold call_setter.
    destruct (setter attestor (heap w)) as [[ret [err|]] h']; cbn; [|apply IH].
    right. exists attestor, ret, err. destruct ret; cbn; apply elem_of_app; right; left.
Qed.

Lemma bind_attestor_run ro a w :
  bind_attestor ro (Some a) w =
  match AttestorOptSetters ro !! inst_type a with
  | Some setters =>
      match apply_setters (inst_type a) setters (Some a) w with
      | (Next _, w') => (Next tt, w')
      | (Return e, w') => (Return e, w')
      | (Panic msg, w') => (Panic msg, w')
      end
  | None => (Next tt, w)
  end.
Proof.
  unfold bind_attestor. rewrite bind_run. cbn.
  destruct (AttestorOptSetters ro !! inst_type a) as [setters|]; [|done].
  rewrite bind_run.
  by destruct (apply_setters (inst_type a) setters (Some a) w) as [[a'|e|msg] w1].
Qed.

Lemma bind_options_result ro attestors w :
  Forall is_Some attestors ->
  (bind_options ro attestors w).1 = Next tt
  \/ exists key arg ret err,
       EvSetter key arg ret (Some err) ∈ trace (bind_options ro attestors w).2.
Proof.
  unfold bind_options. intros Hsome. revert w.
  induction Hsome as [|attestor attestors [a ->] _ IH]; intros w; simpl; [by left|].
  rewrite bind_run, bind_attestor_run.
  destruct (AttestorOptSetters ro !! inst_type a) as [setters|]; [|apply IH].
  destruct (apply_setters_result (inst_type a) setters (Some a) w)
    as [[a' Hnext]|(arg & ret & err & Hin)];
    destruct (apply_setters (inst_type a) setters (Some a) w) as [[a''|e|msg] w1];
    cbn in *; try done; try apply IH.
  all: right; by exists (inst_type a), arg, ret, err.
Qed.

Lemma attestation_Attestors_result env names w :
  (exists l, (attestation_Attestors env names w).1 = Next (inl l)
             /\ Forall is_Some l)
  \/ exists err name,
       (attestation_Attestors env names w).1 = Next (inr err)
       /\ EvNotFound name ∈ trace (attestation_Attestors env names w).2.
Proof.
  revert w. induction names as [|name names IH]; intros w; simpl.
  - left. by exists [].
  - destruct (registry env name) as [ty|].
    + rewrite bind_run. cbn. rewrite bind_run.
      match goal with |- context [attestation_Attestors env names ?w1] =>
        destruct (IH w1) as [(l & Hr & Hsome)|(err & name' & Hr & Hin)];
        destruct (attestation_Attestors env names w1) as [r w2] end;
        cbn in *; subst r; cbn.
      * left. eexists. split; [done|]. by constructor.
      * right. by exists err, name'.
    + right. eexists _, name. split; [done|]. cbn. apply elem_of_app. right. left.
Qed.

Lemma build_attestors_result env ro args w :
  (exists l, (build_attestors env ro args w).1 = Next l /\ Forall is_Some l)
  \/ exists name e,
       (build_attestors env ro args w).1 = Return e
       /\ EvNotFound name ∈ trace (build_attestors env ro args w).2.
Proof.
  destruct (build_attestors_run env ro args w) as (w1 & ->). rewrite bind_run.
  destruct (attestation_Attestors_result env (Attestations ro) w1)
    as [(l & Hr & Hsome)|(err & name & Hr & Hin)];
    destruct (attestation_Attestors env (Attestations ro) w1) as [r w2];
    cbn in *; subst r; cbn.
  - left. eexists. split; [done|].
    constructor; [done|]. constructor; [done|].
    destruct (length args); cbn; [done|]. by constructor.
  - right. by exists name, (Some (Errorf_w "failed to create attestors := " err)).
Qed.

Lemma configure_result env ro args s w :
  (exists req, (configure env ro args s w).1 = Next req)
  \/ exists e, e ∈ trace (configure env ro args s w).2 /\ setup_failure e.
Proof.
  unfold configure. rewrite bind_run.
  destruct (build_attestors_result env ro args w)
    as [(l & Hr & Hsome)|(name & e & Hr & Hin)];
    destruct (build_attestors env ro args w) as [r w1]; cbn in *; subst r.
  - rewrite bind_run.
    destruct (bind_options_result ro l w1 Hsome)
      as [Hnext|(key & arg & ret & err & Hin)];
      destruct (bind_options ro l w1) as [[[]|e|msg] w2]; cbn in *; try done.
    + left. by eexists.
    + right. by eexists (EvSetter _ _ _ (Some _)).
    + right. by eexists (EvSetter _ _ _ (Some _)).
    + right. by eexists (EvSetter _ _ _ (Some _)).
  - right. by exists (EvNotFound name).
Qed.

Lemma signer_verdict_msg signers errors msg logs :
  signer_verdict signers errors = inl (msg, logs) ->
  msg ∈ ["failed to load signers"; "only one signer is supported"; "no signers found"].
Proof.
  destruct errors as [|err errors].
  - destruct signers as [|s1 [|s2 signers]]; intros [= <- _].
    + right. right. left.
    + right. left.
  - intros [= <- _]. left.
Qed.

(** A run ends under the [defer], or at the signer resolver, or at the
    opening of the output, or with a failure of the attestor stages. *)
Lemma runRun_result env ro args h :
  (exists req w2,
     prepared env ro args (start h) = (Next req, w2)
     /\ Forall prelude_event (trace w2)
     /\ out_data w2 = []
     /\ runRun env ro args (start h) = defer out_Close (deliver env ro req) w2)
  \/ (exists msg,
        msg ∈ ["failed to load signers"; "only one signer is supported";
               "no signers found"]
        /\ (runRun env ro args (start h)).1 = Return (Some (errorString msg)))
  \/ (exists err,
        loadOutfile env (OutFilePath ro) = Some err
        /\ (runRun env ro args (start h)).1
           = Return (Some (Errorf_w "failed to open out file: " err)))
  \/ (exists e, e ∈ trace (runRun env ro args (start h)).2 /\ setup_failure e).
Proof.
  rewrite !runRun_prepared.
  destruct (prepare_paths env ro args h) as (Hpre & Ho & _ & _).
  apply Prelude_events in Hpre. revert Hpre Ho. rewrite prepare_run.
  destruct (loadSigners env (KeyOptions ro)) as [signers errors].
  destruct (signer_verdict signers errors) as [[msg logs]|s] eqn:Hv.
  { intros _ _. right. left. exists msg. split; [|done].
    by eapply signer_verdict_msg. }
  destruct (loadOutfile env (OutFilePath ro)) as [err|].
  { intros _ _. right. right. left. by exists err. }
  destruct (configure_result env ro args s (opened ro h)) as [[req Hr]|(e & Hin & He)];
    destruct (configure env ro args s (opened ro h)) as [r w2]; cbn in *.
  - subst r. intros Hpre Ho. left. by exists req, w2.
  - intros Hpre Ho. destruct r as [req|x|msg].
    + left. by exists req, w2.
    + right. right. right. by exists e.
    + right. right. right. by exists e.
Qed.

(** X1: With one signer loaded, if the output file cannot be opened the
    pipeline returns "failed to open out file: " wrapping the cause, right
    after the load and the failed open: no attestor is constructed and
    nothing else happens. *)
Theorem open_failure_stops env ro args h s err :
  loadSigners env (KeyOptions ro) = ([s], []) ->
  loadOutfile env (OutFilePath ro) = Some err ->
  runRun env ro args (start h)
  = (Return (Some (Errorf_w "failed to open out file: " err)),
     {| heap := h; out_data := [];
        trace := [EvLoadSigners; EvLoadOutfile (OutFilePath ro) false] |}).
Proof.
  intros Hload Hopen. rewrite runRun_prepared, prepare_run, Hload. cbn.
  by rewrite Hopen.
Qed.

Lemma open_failure_stops_witness :
  (runRun open_fails_env demo_ro ["make"] (start [])).1
  = Return (Some (wrapError "failed to open out file: open out.json: permission denied"
                    (errorString "open out.json: permission denied"))).
Proof.
  rewrite (open_failure_stops open_fails_env demo_ro ["make"] [] "key.pem"
             (errorString "open out.json: permission denied")).
  - reflexivity.
  - reflexivity.
  - reflexivity.
Defined.

(** X2: The pipeline returns nil only at the end of line 140: then
    [witness.Run] answered a result, the output destination holds exactly
    the marshalled envelope of that result, written completely, the store
    succeeded if publishing is enabled, and the output was closed once. *)
Theorem nil_return_means_delivered env ro args h :
  (runRun env ro args (start h)).1 = Return None ->
  let w := (runRun env ro args (start h)).2 in
  exists req result data,
    EvRun req true ∈ trace w
    /\ witness_Run env req (heap w) = inl result
    /\ json_Marshal env (SignedEnvelope result) = inl data
    /\ out_Write env data = None
    /\ out_data w = data
    /\ (Enable (ArchivistaOptions ro) = true ->
        exists gitoid,
          archivista_Store env (Url (ArchivistaOptions ro)) (SignedEnvelope result)
          = inl gitoid)
    /\ closes (trace w) = 1.
Proof.
  intros Hnil. cbv zeta.
  destruct (runRun_result env ro args h)
    as [(req & w2 & _ & Hpre & Ho & Heq)|[(msg & _ & Hr)|[(err & _ & Hr)|(e & Hin & He)]]].
  2,3: rewrite Hr in Hnil; discriminate Hnil.
  2: { destruct e as [| | | | |name|key arg ret [err|]| | | | |]; try done.
       - rewrite (unknown_attestor_exit _ _ _ _ _ Hin) in Hnil. discriminate Hnil.
       - rewrite (failing_setter_exit _ _ _ _ _ _ _ _ Hin) in Hnil.
         by destruct ret. }
  assert (closes (trace (runRun env ro args (start h)).2) = 1) as Hclose.
  { destruct (closed_once_after_defer env ro args h) as [Hone _].
    revert Hone. cbv zeta. rewrite Heq.
    destruct (deliver_cases env ro req w2) as (tail & Ht & _ & _).
    cbv zeta in *. rewrite Ht. intros Hone.
    apply (Hone req (succeeded (witness_Run env req (heap w2)))).
    apply elem_of_app. right. left. }
  revert Hnil Hclose. rewrite Heq.
  destruct (deliver_cases env ro req w2) as (tail & Ht & Hh & Hc).
  cbv zeta in *. rewrite Ht, Hh, Ho in *. intros Hnil Hclose.
  deliver_split Hc; cbn in *; try congruence.
  all: eexists req, _, _; split_and!; try done;
    first [apply elem_of_app; right; left | intros _; by eexists].
Qed.

Lemma nil_return_means_delivered_witness :
  exists data,
    json_Marshal demo_env (demo_envelope "build") = inl data
    /\ out_data (runRun demo_env demo_ro ["make"] (start [])).2 = data.
Proof.
  destruct (nil_return_means_delivered demo_env demo_ro ["make"] [])
    as (req & result & data & _ & _ & _ & _ & Hout & _).
  - reflexivity.
  - exists data. split; [|exact Hout]. rewrite <- Hout. reflexivity.
Defined.

(** X3: The pipeline panics in one way only: a setter bound to the type of
    a built attestor answered an error together with a nil attestor, and
    the error branch of line 104 called [Type()] on it.  No other call of
    the pipeline panics: the built list holds no nil attestor and
    [signers[0]] is in range. *)
Theorem panic_only_from_nil_setter env ro args h msg :
  (runRun env ro args (start h)).1 = Panic msg ->
  msg = "invalid memory address or nil pointer dereference"
  /\ exists key setters setter arg h' err,
       AttestorOptSetters ro !! key = Some setters
       /\ setter ∈ setters
       /\ (setter arg h').1 = (None, Some err)
       /\ EvSetter key arg None (Some err) ∈ trace (runRun env ro args (start h)).2.
Proof.
  intros Hpanic.
  destruct (runRun_result env ro args h)
    as [(req & w2 & _ & _ & _ & Heq)|[(m & _ & Hr)|[(err & _ & Hr)|(e & Hin & He)]]].
  - exfalso. revert Hpanic. rewrite Heq.
    destruct (deliver_cases env ro req w2) as (tail & _ & _ & Hc).
    cbv zeta in *. intros Hpanic. deliver_split Hc; congruence.
  - rewrite Hr in Hpanic. discriminate Hpanic.
  - rewrite Hr in Hpanic. discriminate Hpanic.
  - destruct e as [| | | | |name|key arg ret [err|]| | | | |]; try done.
    + rewrite (unknown_attestor_exit _ _ _ _ _ Hin) in Hpanic. discriminate Hpanic.
    + rewrite (failing_setter_exit _ _ _ _ _ _ _ _ Hin) in Hpanic.
      destruct ret as [a|]; [discriminate Hpanic|]. injection Hpanic as <-.
      split; [done|].
      destruct (Forall_elem _ _ _ (trace_justified env ro args h) Hin)
        as (setters & setter & h' & Hkey & Hsetter & Hcall).
      by exists key, setters, setter, arg, h', err.
Qed.

Lemma panic_only_from_nil_setter_witness :
  exists key setters,
    AttestorOptSetters rejecting_ro !! key = Some setters
    /\ exists setter arg h' err,
         setter ∈ setters /\ (setter arg h').1 = (None, Some err).
Proof.
  destruct (panic_only_from_nil_setter demo_env rejecting_ro ["make"] []
              "invalid memory address or nil pointer dereference")
    as (_ & key & setters & setter & arg & h' & err & Hkey & Hin & Hcall & _).
  - reflexivity.
  - exists key, setters. split; [exact Hkey|]. by exists setter, arg, h', err.
Defined.

(** X4: Whatever error the pipeline returns is one of: the three errors
    of the signer resolver; "failed to open out file: " wrapping the error
    of [loadOutfile]; "failed to create attestors := " wrapping the
    not-found error of a requested name the registry does not know;
    "failed to set attestor option for T: " wrapping the error a bound
    setter answered, T being the type of the attestor it answered; the
    error of [witness.Run], not wrapped; "failed to marshal envelope: ",
    "failed to write envelope to out file: " or, with publishing enabled,
    "failed to store artifact in archivist: " wrapping the error of the
    call that failed. *)
Theorem returned_errors env ro args h e :
  (runRun env ro args (start h)).1 = Return (Some e) -> ErrorExit env ro e.
Proof.
  intros Hret.
  destruct (runRun_result env ro args h)
    as [(req & w2 & _ & _ & _ & Heq)|[(m & Hm & Hr)|[(err & Hopen & Hr)|(ev & Hin & He)]]].
  - revert Hret. rewrite Heq.
    destruct (deliver_cases env ro req w2) as (tail & _ & _ & Hc).
    cbv zeta in *. intros Hret.
    deliver_split Hc; cbn in *;
      match goal with
      | H : (defer _ _ _).1 = _ |- _ =>
          tryif constr_eq H Hret then fail else rewrite H in Hret
      end;
      first [discriminate Hret | injection Hret as <-; by econstructor].
  - rewrite Hr in Hret. injection Hret as <-. by constructor.
  - rewrite Hr in Hret. injection Hret as <-. by constructor.
  - pose proof (Forall_elem _ _ _ (trace_justified env ro args h) Hin) as Hj.
    destruct ev as [| | | | |name|key arg ret [err|]| | | | |]; try done.
    + rewrite (unknown_attestor_exit _ _ _ _ _ Hin) in Hret.
      injection Hret as <-. destruct Hj. by constructor.
    + rewrite (failing_setter_exit _ _ _ _ _ _ _ _ Hin) in Hret.
      destruct ret as [a|]; [|discriminate Hret]. injection Hret as <-.
      destruct Hj as (setters & setter & h' & Hkey & Hsetter & Hcall).
      by econstructor.
Qed.

Lemma returned_errors_witness :
  ErrorExit store_fails_env demo_ro
    (Errorf_w "failed to store artifact in archivist: "
       (errorString "503 service unavailable")).
Proof.
  apply (returned_errors store_fails_env demo_ro ["make"] []). reflexivity.
Defined.

(** ** The sink *)

(** X5: If the envelope of the run result cannot be marshalled, the
    pipeline returns "failed to marshal envelope: " wrapping the cause;
    nothing is written or stored, the output destination stays empty and
    is closed once. *)
Theorem marshal_failure_writes_nothing env ro args h :
  let r := (runRun env ro args (start h)).1 in
  let w := (runRun env ro args (start h)).2 in
  EvMarshal false ∈ trace w ->
  exists req result err,
    witness_Run env req (heap w) = inl result
    /\ json_Marshal env (SignedEnvelope result) = inr err
    /\ r = Return (Some (Errorf_w "failed to marshal envelope: " err))
    /\ out_data w = []
    /\ (forall data werr, EvWrite data werr ∉ trace w)
    /\ (forall url ok, EvStore url ok ∉ trace w)
    /\ closes (trace w) = 1.
Proof.
  cbv zeta. rewrite runRun_prepared.
  destruct (prepare_paths env ro args h) as (Hpre & Ho & _ & _).
  apply Prelude_events in Hpre.
  destruct (prepared env ro args (start h)) as [[req|e|msg] w2]; cbn in *.
  2,3: intros Hin; by apply (Forall_elem _ _ _ Hpre) in Hin.
  destruct (deliver_cases env ro req w2) as (tail & Ht & Hh & Hc).
  cbv zeta in *. rewrite Ht, Hh. intros Hin.
  deliver_split Hc; cbn in *; trace_split Hin;
    try (by apply (Forall_elem _ _ _ Hpre) in Hin); try done.
  eexists req, _, _. split_and!; [done|done|done|congruence| | |].
  - intros data werr Hw. trace_split Hw; try done.
    by apply (Forall_elem _ _ _ Hpre) in Hw.
  - intros url ok Hs. trace_split Hs; try done.
    by apply (Forall_elem _ _ _ Hpre) in Hs.
  - by rewrite closes_app, closes_prelude.
Qed.

Lemma marshal_failure_writes_nothing_witness :
  (runRun marshal_fails_env demo_ro ["make"] (start [])).1
  = Return (Some (Errorf_w "failed to marshal envelope: "
                    (errorString "json: unsupported value")))
  /\ out_data (runRun marshal_fails_env demo_ro ["make"] (start [])).2 = [].
Proof.
  destruct (marshal_failure_writes_nothing marshal_fails_env demo_ro ["make"] [])
    as (req & result & err & _ & Hm & Hr & Hout & _).
  - vm_compute. repeat constructor.
  - split; [|exact Hout]. rewrite Hr. vm_compute in Hm. by injection Hm as <-.
Defined.

(** X6: If the write of the marshalled envelope fails, the pipeline returns
    "failed to write envelope to out file: " wrapping the cause; the output
    destination holds the bytes that were written before the failure, a
    prefix of the envelope; no store is attempted, even with publishing
    enabled; the output is closed once. *)
Theorem write_failure_skips_publish env ro args h data err :
  let r := (runRun env ro args (start h)).1 in
  let w := (runRun env ro args (start h)).2 in
  EvWrite data (Some err) ∈ trace w ->
  r = Return (Some (Errorf_w "failed to write envelope to out file: " err))
  /\ (exists n, out_Write env data = Some (n, err) /\ out_data w = take n data)
  /\ out_data w `prefix_of` data
  /\ (forall url ok, EvStore url ok ∉ trace w)
  /\ closes (trace w) = 1.
Proof.
  cbv zeta. rewrite runRun_prepared.
  destruct (prepare_paths env ro args h) as (Hpre & Ho & _ & _).
  apply Prelude_events in Hpre.
  destruct (prepared env ro args (start h)) as [[req|e|msg] w2]; cbn in *.
  2,3: intros Hin; by apply (Forall_elem _ _ _ Hpre) in Hin.
  destruct (deliver_cases env ro req w2) as (tail & Ht & Hh & Hc).
  cbv zeta in *. rewrite Ht. rewrite Ho in Hc. intros Hin.
  deliver_split Hc; cbn in *; trace_split Hin;
    try (by apply (Forall_elem _ _ _ Hpre) in Hin); try done.
  all: injection Hin as -> ->.
  all: match goal with H : out_data _ = take _ _ |- _ => rewrite H end.
  all: split_and!; [done|by eexists|apply prefix_take| |].
  all: try by rewrite closes_app, closes_prelude.
  all: intros url ok Hs; trace_split Hs; try done.
  all: by apply (Forall_elem _ _ _ Hpre) in Hs.
Qed.

Lemma write_failure_skips_publish_witness :
  out_data (runRun write_fails_env demo_ro ["make"] (start [])).2
  = String.list_byte_of_string "bui"
  /\ forall url ok,
       EvStore url ok ∉ trace (runRun write_fails_env demo_ro ["make"] (start [])).2.
Proof.
  destruct (write_failure_skips_publish write_fails_env demo_ro ["make"] []
              (String.list_byte_of_string "build")
              (errorString "write out.json: no space left on device"))
    as (_ & _ & _ & Hstore & _).
  - vm_compute. repeat constructor.
  - split; [reflexivity | exact Hstore].
Defined.

(** ** The orchestrator *)

Lemma timestampers_fmap ro :
  timestampers ro = NewTimestamper <$> TimestampServers ro.
Proof.
  unfold timestampers.
  enough (forall urls acc,
            foldl (fun acc url => acc ++ [NewTimestamper url]) acc urls
            = acc ++ (NewTimestamper <$> urls)) as Hgen by apply (Hgen _ []).
  induction urls as [|url urls IH]; intros acc; cbn.
  - by rewrite app_nil_r.
  - by rewrite IH, <- app_assoc.
Qed.

(** X7: Whenever [witness.Run] is called, it is called with the step name
    and the working directory of the options, with the one signer that
    [loadSigners] answered, with one timestamper per configured timestamp
    server, in configuration order, and with a list of attestors of the
    types the builder produced. *)
Theorem run_request env ro args h req ok :
  EvRun req ok ∈ trace (runRun env ro args (start h)).2 ->
  exists s,
    loadSigners env (KeyOptions ro) = ([s], [])
    /\ run_signer req = s
    /\ run_StepName req = StepName ro
    /\ WithWorkingDir req = WorkingDir ro
    /\ RunWithTimestampers req = NewTimestamper <$> TimestampServers ro
    /\ Type_of <$> RunWithAttestors req = Some <$> built_types env ro args.
Proof.
  rewrite runRun_prepared.
  destruct (prepare_paths env ro args h) as (Hpre & _ & _ & Hreq).
  apply Prelude_events in Hpre.
  destruct (prepared env ro args (start h)) as [[req'|e|msg] w2]; cbn in *.
  2,3: intros Hrun; by apply (Forall_elem _ _ _ Hpre) in Hrun.
  destruct (Hreq req' eq_refl) as (s & l & rest & Hload & -> & Hty & _).
  destruct (deliver_cases env ro (request ro s l (timestampers ro)) w2)
    as (tail & Ht & _ & Hc).
  cbv zeta in *. rewrite Ht. intros Hin.
  assert (req = request ro s l (timestampers ro)) as ->.
  { deliver_split Hc; cbn in *; trace_split Hin; try done.
    all: try (by apply (Forall_elem _ _ _ Hpre) in Hin).
    all: by injection Hin as -> _. }
  exists s. cbn. by rewrite timestampers_fmap.
Qed.

Lemma run_request_witness :
  exists s,
    loadSigners demo_env (KeyOptions demo_ro) = ([s], [])
    /\ s = "key.pem".
Proof.
  destruct (run_request demo_env demo_ro ["make"] []
    (request demo_ro "key.pem"
       [Some (Instance product_Type 0); Some (Instance material_Type 1);
        Some (Instance commandrun_Type 2); Some (Instance git_Type 3)]
       [NewTimestamper "https://tsa.example"]) true)
    as (s & Hload & Hs & _).
  - vm_compute. repeat constructor.
  - exists s. split; [exact Hload|]. rewrite <- Hs. reflexivity.
Defined.

(** ** One pass, in order *)

Lemma omap_call_of_nil (evs : list Event) :
  Forall (fun e => call_of e = None) evs -> omap call_of evs = [].
Proof. induction 1 as [|e evs He _ IH]; [done|]. cbn. by rewrite He. Qed.

Lemma Prelude_calls env ro args pre :
  Prelude env ro args pre ->
  omap call_of pre = [CallLoadSigners]
  \/ omap call_of pre = [CallLoadSigners; CallLoadOutfile].
Proof.
  intros [signers errors logs _ _ Hlogs|s err _ _|s evs1 evs2 _ _ Hb1 Hb2].
  - left. cbn. rewrite omap_call_of_nil; [done|].
    eapply Forall_impl; [exact Hlogs|]. by intros e [line ->].
  - by right.
  - right. cbn. rewrite omap_app, !omap_call_of_nil; [done| |].
    + eapply Forall_impl; [exact Hb2|]. by intros [].
    + eapply Forall_impl; [exact Hb1|]. by intros [].
Qed.

(** X8: The pipeline makes one pass: in every run [loadSigners],
    [loadOutfile], [witness.Run], [json.Marshal], [out.Write], [Store] and
    [out.Close] are each called at most once; nothing is retried. *)
Theorem no_call_twice env ro args h :
  NoDup (omap call_of (trace (runRun env ro args (start h)).2)).
Proof.
  rewrite runRun_prepared.
  destruct (prepare_paths env ro args h) as (Hpre & _ & _ & _).
  apply Prelude_calls in Hpre.
  destruct (prepared env ro args (start h)) as [[req|e|msg] w2]; cbn in *.
  2,3: destruct Hpre as [-> | ->]; by apply (bool_decide_unpack _).
  destruct (deliver_cases env ro req w2) as (tail & Ht & _ & Hc).
  cbv zeta in *. rewrite Ht, omap_app.
  deliver_split Hc; destruct Hpre as [-> | ->]; by apply (bool_decide_unpack _).
Qed.

Lemma stage_const_sorted (k : nat) (evs : list Event) :
  Forall (fun e => stage e = k) evs -> StronglySorted le (stage <$> evs).
Proof.
  induction 1 as [|e evs He Hevs IH]; cbn; constructor; [done|].
  rewrite Forall_fmap. eapply Forall_impl; [exact Hevs|].
  intros e' He'. unfold compose. cbn in *. lia.
Qed.

Lemma Prelude_stages env ro args pre :
  Prelude env ro args pre ->
  StronglySorted le (stage <$> pre) /\ Forall (fun e => stage e <= 3) pre.
Proof.
  intros [signers errors logs _ _ Hlogs|s err _ _|s evs1 evs2 _ _ Hb1 Hb2].
  - assert (Hz : Forall (fun e => stage e = 0) (EvLoadSigners :: logs)).
    { constructor; [done|]. eapply Forall_impl; [exact Hlogs|]. by intros e [line ->]. }
    split; [by apply (stage_const_sorted 0)|].
    eapply Forall_impl; [exact Hz|]. intros e He. cbn in He. lia.
  - split; cbn; repeat constructor; lia.
  - assert (H2 : Forall (fun e => stage e = 2) evs1).
    { eapply Forall_impl; [exact Hb1|]. by intros []. }
    assert (H3 : Forall (fun e => stage e = 3) evs2).
    { eapply Forall_impl; [exact Hb2|]. by intros []. }
    split.
    + cbn. rewrite fmap_app. constructor; [constructor|].
      * apply StronglySorted_app_2;
          [|by apply (stage_const_sorted 2)|by apply (stage_const_sorted 3)].
        intros x1 x2 (e1 & -> & He1)%list_elem_of_fmap (e2 & -> & He2)%list_elem_of_fmap.
        rewrite Forall_forall in H2, H3.
        rewrite (H2 e1 He1), (H3 e2 He2). lia.
      * rewrite <- fmap_app, Forall_fmap, Forall_app. split.
        -- eapply Forall_impl; [exact H2|]. intros e He. unfold compose. cbn in *. lia.
        -- eapply Forall_impl; [exact H3|]. intros e He. unfold compose. cbn in *. lia.
      * constructor; [lia|]. rewrite <- fmap_app, Forall_fmap, Forall_app. split.
        -- eapply Forall_impl; [exact H2|]. intros e He. unfold compose. cbn in *. lia.
        -- eapply Forall_impl; [exact H3|]. intros e He. unfold compose. cbn in *. lia.
    + repeat constructor; [cbn; lia..|]. rewrite Forall_app. split.
      * eapply Forall_impl; [exact H2|]. intros e He. cbn in *. lia.
      * eapply Forall_impl; [exact H3|]. intros e He. cbn in *. lia.
Qed.

(** X9: The stages never interleave: along the trace of any run the events
    come in source order -- signer resolution and its log lines, opening of
    the output, construction of the attestors, option binding, the attested
    run, marshalling, the write, the publication, its report, the close. *)
Theorem stages_in_source_order env ro args h :
  StronglySorted le (stage <$> trace (runRun env ro args (start h)).2).
Proof.
  rewrite runRun_prepared.
  destruct (prepare_paths env ro args h) as (Hpre & _ & _ & _).
  apply Prelude_stages in Hpre. destruct Hpre as [Hsorted Hle].
  destruct (prepared env ro args (start h)) as [[req|e|msg] w2]; cbn in *.
  2,3: exact Hsorted.
  destruct (deliver_cases env ro req w2) as (tail & Ht & _ & Hc).
  cbv zeta in *. rewrite Ht, fmap_app.
  apply StronglySorted_app_2; [|exact Hsorted|].
  - intros x1 x2 (e1 & -> & He1)%list_elem_of_fmap (e2 & -> & He2)%list_elem_of_fmap.
    rewrite Forall_forall in Hle. specialize (Hle e1 He1).
    enough (4 <= stage e2) by lia.
    deliver_split Hc; trace_split He2; subst; cbn; lia.
  - deliver_split Hc; cbn; repeat constructor; lia.
Qed.

(** ** The log *)

(** X10: The only info line of a run is the report of the publication: it
    is logged only when publishing is enabled and the store answered an
    identifier, it reads "Stored in archivist as <identifier>" with a line
    feed, and the run then returns nil. *)
Theorem info_line_reports_store env ro args h msg :
  EvLogInfo msg ∈ trace (runRun env ro args (start h)).2 ->
  (runRun env ro args (start h)).1 = Return None
  /\ Enable (ArchivistaOptions ro) = true
  /\ exists req h' result gitoid,
       witness_Run env req h' = inl result
       /\ archivista_Store env (Url (ArchivistaOptions ro)) (SignedEnvelope result)
          = inl gitoid
       /\ msg = "Stored in archivist as " +:+ gitoid +:+ newline.
Proof.
  rewrite !runRun_prepared.
  destruct (prepare_paths env ro args h) as (Hpre & _ & _ & _).
  apply Prelude_events in Hpre. rewrite Forall_forall in Hpre.
  destruct (prepared env ro args (start h)) as [[req|e|m] w2]; cbn in *.
  2,3: intros Hin; by destruct (Hpre _ Hin).
  destruct (deliver_cases env ro req w2) as (tail & Ht & _ & Hc).
  cbv zeta in *. rewrite Ht. intros Hin.
  apply elem_of_app in Hin as [Hin|Hin]; [by destruct (Hpre _ Hin)|].
  deliver_split Hc; trace_split Hin; try discriminate Hin.
  injection Hin as ->. split_and!; [done..|]. by eexists req, _, _, _.
Qed.

Lemma info_line_reports_store_witness :
  (runRun demo_env demo_ro ["make"] (start [])).1 = Return None.
Proof.
  apply (info_line_reports_store demo_env demo_ro ["make"] []
           ("Stored in archivist as " +:+ "gitoid:blob:sha256:0a" +:+ newline)).
  vm_compute. repeat constructor.
Defined.

Lemma error_line_before_run env ro args h line :
  EvLogError line ∈ trace (runRun env ro args (start h)).2 ->
  EvLogError line ∈ trace (prepared env ro args (start h)).2.
Proof.
  rewrite runRun_prepared.
  destruct (prepared env ro args (start h)) as [[req|e|m] w2]; cbn; [|done..].
  destruct (deliver_cases env ro req w2) as (tail & Ht & _ & Hc).
  cbv zeta in *. rewrite Ht. intros Hin.
  apply elem_of_app in Hin as [Hin|Hin]; [done|].
  deliver_split Hc; trace_split Hin; discriminate Hin.
Qed.

(** X11: An error line in the log always comes from the signer resolver.
    It is the text of a load error, and the run returns "failed to load
    signers"; or no load failed and it is the complaint about the number of
    signers, which is also the error returned.  Failures of the later
    stages are returned but never logged. *)
Theorem error_line_means_no_signer env ro args h line :
  EvLogError line ∈ trace (runRun env ro args (start h)).2 ->
  exists signers errors,
    loadSigners env (KeyOptions ro) = (signers, errors)
    /\ ((exists err, err ∈ errors /\ line = Error err
           /\ (runRun env ro args (start h)).1
              = Return (Some (errorString "failed to load signers")))
        \/ (errors = [] /\ 1 < length signers
            /\ line = "only one signer is supported"
            /\ (runRun env ro args (start h)).1 = Return (Some (errorString line)))
        \/ (errors = [] /\ signers = []
            /\ line = "no signers found"
            /\ (runRun env ro args (start h)).1 = Return (Some (errorString line)))).
Proof.
  intros Hin%error_line_before_run. revert Hin.
  rewrite !runRun_prepared, prepare_run.
  destruct (loadSigners env (KeyOptions ro)) as [signers errors].
  intros Hin. exists signers, errors. split; [done|]. revert Hin.
  destruct errors as [|err errors]; [destruct signers as [|s1 [|s2 signers]]|]; cbn.
  - intros Hin. trace_split Hin; try discriminate Hin.
    injection Hin as ->. by right; right.
  - destruct (loadOutfile env (OutFilePath ro)) as [err|]; cbn.
    { intros Hin. trace_split Hin; discriminate Hin. }
    destruct (configure_cases env ro args s1 (opened ro h))
      as (evs1 & evs2 & Hb1 & Hb2 & _ & Ht & _).
    rewrite Ht. cbn. intros Hin. exfalso.
    rewrite Forall_forall in Hb1, Hb2.
    trace_split Hin; try discriminate Hin.
    + by apply Hb1 in Hin.
    + by apply Hb2 in Hin.
  - intros Hin. trace_split Hin; try discriminate Hin.
    injection Hin as ->. right; left. split_and!; [done|cbn; lia|done..].
  - intros Hin. apply elem_of_cons in Hin as [Hin|Hin]; [discriminate Hin|].
    left. change (EvLogError line ∈ EvLogError ∘ Error <$> err :: errors) in Hin.
    apply list_elem_of_fmap in Hin as (err' & [= ->] & Hin). by exists err'.
Qed.

Lemma error_line_means_no_signer_witness :
  exists signers errors,
    loadSigners (with_signers (["a.pem"; "b.pem"], [])) (KeyOptions demo_ro)
    = (signers, errors)
    /\ 1 < length signers.
Proof.
  destruct (error_line_means_no_signer (with_signers (["a.pem"; "b.pem"], []))
              demo_ro ["make"] [] "only one signer is supported")
    as (signers & errors & Hload & Hcase).
  - vm_compute. repeat constructor.
  - exists signers, errors. split; [exact Hload|].
    injection Hload as <- <-. cbn. lia.
Defined.

(** ** What the builder allocates *)

Lemma allocated_cons base ty tys :
  allocated base (ty :: tys) = Some (Instance ty base) :: allocated (S base) tys.
Proof.
  unfold allocated. rewrite imap_cons, Nat.add_0_r. f_equal.
  apply imap_ext. intros i ty' _. cbn. do 2 f_equal. lia.
Qed.

Lemma allocated_app base tys1 tys2 :
  allocated base (tys1 ++ tys2)
  = allocated base tys1 ++ allocated (base + length tys1) tys2.
Proof.
  unfold allocated. rewrite imap_app. f_equal.
  apply imap_ext. intros i ty' _. cbn. do 2 f_equal. lia.
Qed.

Lemma length_allocated base tys : length (allocated base tys) = length tys.
Proof. unfold allocated. apply length_imap. Qed.

Lemma attestation_Attestors_allocates env names w l w' :
  attestation_Attestors env names w = (Next (inl l), w') ->
  l = allocated (length (heap w)) (omap (registry env) names)
  /\ length l = length names
  /\ heap w' = heap w ++ replicate (length names) new_object.
Proof.
  revert w l w'. induction names as [|name names IH]; intros w l w'; simpl.
  - intros [= <- <-]. by rewrite app_nil_r.
  - destruct (registry env name) as [ty|]; [|by intros [=]].
    rewrite bind_run. cbn. rewrite bind_run.
    match goal with |- context [attestation_Attestors env names ?w1] =>
      destruct (attestation_Attestors_next env names w1) as (r & w2 & Hr) end.
    rewrite Hr. destruct r as [l'|err]; intros [= <- <-]; cbn.
    apply IH in Hr as (-> & Hlen & ->). rewrite length_allocated in Hlen. cbn.
    rewrite length_app, Nat.add_1_r, allocated_cons, <- app_assoc, length_allocated.
    by rewrite Hlen.
Qed.

Lemma build_attestors_allocates env ro args w l w' :
  build_attestors env ro args w = (Next l, w') ->
  l = allocated (length (heap w)) (built_types env ro args)
  /\ heap w' = heap w ++ built_objects ro args (length (Attestations ro)).
Proof.
  unfold build_attestors, product_New, material_New, commandrun_New, alloc.
  unfold built_types, built_objects.
  mrun. destruct args as [|arg args]; cbn; rewrite ?bind_run.
  all: match goal with |- context [attestation_Attestors ?env' ?names ?w1] =>
         destruct (attestation_Attestors_next env' names w1) as (r & w2 & Hr) end.
  all: rewrite Hr; destruct r as [addtl|err]; mrun; [|by intros [=]].
  all: intros [= <- <-].
  all: apply attestation_Attestors_allocates in Hr as (-> & _ & ->); cbn.
  all: rewrite !allocated_cons, !length_app; cbn; rewrite !Nat.add_1_r.
  all: by rewrite <- !app_assoc.
Qed.

(** X12: When the builder succeeds, every attestor of its list is a newly
    constructed instance of its own: the instances lie at consecutive new
    addresses in list order, the objects that were there before are
    untouched, and the command-run attestor is constructed with exactly
    the command-line arguments and the tracing flag of the options. *)
Theorem builder_allocates env ro args w l w' :
  build_attestors env ro args w = (Next l, w') ->
  l = allocated (length (heap w)) (built_types env ro args)
  /\ heap w' = heap w ++ built_objects ro args (length (Attestations ro)).
Proof. apply build_attestors_allocates. Qed.

Lemma builder_allocates_witness :
  (build_attestors demo_env demo_ro ["make"; "all"] (start [])).1
  = Next (allocated 0 [product_Type; material_Type; commandrun_Type; git_Type])
  /\ heap (build_attestors demo_env demo_ro ["make"; "all"] (start [])).2 !! 2
     = Some (Object ["make"; "all"] false []).
Proof.
  destruct (build_attestors demo_env demo_ro ["make"; "all"] (start []))
    as [r w'] eqn:Hrun.
  assert (exists l, r = Next l) as [l ->].
  { vm_compute in Hrun. injection Hrun as <- _. by eexists. }
  destruct (builder_allocates demo_env demo_ro ["make"; "all"] (start []) l w' Hrun)
    as [Hl Hh].
  cbn [fst snd]. rewrite Hl, Hh. split; reflexivity.
Defined.

(** ** What the orchestrator is handed *)

(** A call of [witness.Run] comes after the builder and the binder went
    through, with the list of the builder and on the heap the binder
    left. *)
Lemma run_event_inv env ro args h req ok :
  EvRun req ok ∈ trace (runRun env ro args (start h)).2 ->
  exists s l w1 w2,
    build_attestors env ro args (opened ro h) = (Next l, w1)
    /\ bind_options ro l w1 = (Next tt, w2)
    /\ req = request ro s l (timestampers ro)
    /\ ok = succeeded (witness_Run env req (heap w2)).
Proof.
  rewrite !runRun_prepared.
  destruct (prepare_paths env ro args h) as (Hpre & _).
  apply Prelude_events in Hpre. revert Hpre. rewrite prepare_run.
  destruct (loadSigners env (KeyOptions ro)) as [signers errors].
  destruct (signer_verdict signers errors) as [[msg logs]|s].
  { cbn. intros Hpre Hin. by apply (Forall_elem _ _ _ Hpre) in Hin. }
  destruct (loadOutfile env (OutFilePath ro)) as [err|].
  { cbn. intros Hpre Hin. by apply (Forall_elem _ _ _ Hpre) in Hin. }
  unfold configure. rewrite bind_run.
  destruct (build_attestors env ro args (opened ro h)) as [[l|e|m] w1] eqn:Hb; cbn.
  2,3: intros Hpre Hin; by apply (Forall_elem _ _ _ Hpre) in Hin.
  rewrite bind_run.
  destruct (bind_options ro l w1) as [[[]|e|m] w2] eqn:Ho; cbn.
  2,3: intros Hpre Hin; by apply (Forall_elem _ _ _ Hpre) in Hin.
  intros Hpre.
  destruct (deliver_cases env ro (request ro s l (timestampers ro)) w2)
    as (tail & Ht & _ & Hc).
  cbv zeta in *. rewrite Ht. intros Hin. exists s, l, w1, w2.
  apply elem_of_app in Hin as [Hin|Hin]; [by apply (Forall_elem _ _ _ Hpre) in Hin|].
  apply elem_of_cons in Hin as [Hin|Hin]; [by injection Hin as -> ->|].
  exfalso. deliver_split Hc; trace_split Hin; discriminate Hin.
Qed.

Lemma elem_of_allocated base tys a :
  a ∈ allocated base tys -> exists ty i, a = Some (Instance ty (base + i)).
Proof.
  unfold allocated. intros (i & Hi)%list_elem_of_lookup.
  rewrite list_lookup_imap in Hi.
  destruct (tys !! i) as [ty|]; [|done]. injection Hi as <-. by exists ty, i.
Qed.

Lemma NoDup_allocated base tys : NoDup (allocated base tys).
Proof.
  revert base. induction tys as [|ty tys IH]; intros base.
  - constructor.
  - rewrite allocated_cons. constructor; [|apply IH].
    intros (ty' & i & [= _ Hi])%elem_of_allocated. lia.
Qed.

(** X13: The list handed to [witness.Run] is the list of the builder as
    the builder left it: its i-th entry is the i-th instance this run
    constructed, of the i-th built type.  So no entry is nil and no
    instance is handed over twice, whatever the setters answered. *)
Theorem run_gets_builder_instances env ro args h req ok :
  EvRun req ok ∈ trace (runRun env ro args (start h)).2 ->
  RunWithAttestors req = allocated (length h) (built_types env ro args)
  /\ Forall is_Some (RunWithAttestors req)
  /\ NoDup (RunWithAttestors req).
Proof.
  intros (s & l & w1 & w2 & Hb & _ & -> & _)%run_event_inv.
  apply build_attestors_allocates in Hb as [-> _]. cbn.
  split_and!; [done| |apply NoDup_allocated].
  apply Forall_forall. by intros a (ty & i & ->)%elem_of_allocated.
Qed.

Lemma run_gets_builder_instances_witness :
  NoDup (allocated 0 (built_types demo_env fresh_ro ["make"])).
Proof.
  destruct (run_gets_builder_instances demo_env fresh_ro ["make"] []
              (request fresh_ro "key.pem"
                 (allocated 0 (built_types demo_env fresh_ro ["make"]))
                 (timestampers fresh_ro))
              true) as (Hl & _ & Hnd).
  - vm_compute. repeat constructor.
  - exact Hnd.
Defined.

(** ** The heap the orchestrator works on *)

Lemma apply_setters_next key setters attestor w attestor' :
  (apply_setters key setters attestor w).1 = Next attestor' ->
  attestor' = (chain setters attestor (heap w)).1
  /\ heap (apply_setters key setters attestor w).2 = (chain setters attestor (heap w)).2.
Proof.
  revert attestor w. induction setters as [|setter setters IH]; intros attestor w; cbn.
  - by intros [= <-].
  - rewrite bind_run. unfold call_setter.
    destruct (setter attestor (heap w)) as [[ret err] h']. cbn.
    destruct err as [err|]; [|apply IH].
    rewrite bind_run. by destruct ret.
Qed.

Lemma bind_attestor_heap ro attestor w :
  (bind_attestor ro attestor w).1 = Next tt ->
  heap (bind_attestor ro attestor w).2
  = (chain (setters_of ro attestor) attestor (heap w)).2.
Proof.
  destruct attestor as [a|]; [|done].
  rewrite bind_attestor_run. unfold setters_of. cbn.
  destruct (AttestorOptSetters ro !! inst_type a) as [setters|]; [|done]. cbn.
  pose proof (apply_setters_next (inst_type a) setters (Some a) w) as Hnext.
  destruct (apply_setters (inst_type a) setters (Some a) w) as [[a'|e|m] w1];
    cbn in *; [|done..].
  intros _. by destruct (Hnext a' eq_refl).
Qed.

Lemma bind_options_heap ro attestors w :
  (bind_options ro attestors w).1 = Next tt ->
  heap (bind_options ro attestors w).2 = bind_heap ro attestors (heap w).
Proof.
  unfold bind_options, bind_heap.
  revert w. induction attestors as [|attestor attestors IH]; intros w; cbn; [done|].
  rewrite bind_run.
  pose proof (bind_attestor_heap ro attestor w) as Hone.
  destruct (bind_attestor ro attestor w) as [[[]|e|m] w1]; cbn in *; [|done..].
  intros Hnext. by rewrite IH, Hone.
Qed.

(** X14: [witness.Run] is called on the objects as the binder left them:
    the objects that were there before the run, then the objects of the
    builder, changed by the setters of each attestor of the list in list
    order, each setter applied to what the one before answered.  What a
    setter does to the object it is given is kept, although what it
    answers is not. *)
Theorem run_sees_bound_objects env ro args h req ok :
  EvRun req ok ∈ trace (runRun env ro args (start h)).2 ->
  ok = succeeded
         (witness_Run env req
            (bind_heap ro (RunWithAttestors req)
               (h ++ built_objects ro args (length (Attestations ro))))).
Proof.
  intros (s & l & w1 & w2 & Hb & Ho & -> & ->)%run_event_inv.
  apply build_attestors_allocates in Hb as [_ Hh].
  change (heap (opened ro h)) with h in Hh.
  pose proof (bind_options_heap ro l w1) as Hbind. rewrite Ho in Hbind.
  specialize (Hbind eq_refl). cbn in Hbind.
  change (RunWithAttestors (request ro s l (timestampers ro))) with l.
  by rewrite <- Hh, <- Hbind.
Qed.

Lemma run_sees_bound_objects_witness :
  let req := request inplace_ro "key.pem"
               (allocated 0 (built_types demo_env inplace_ro ["make"]))
               (timestampers inplace_ro) in
  let objects := bind_heap inplace_ro (RunWithAttestors req)
                   ([] ++ built_objects inplace_ro ["make"]
                            (length (Attestations inplace_ro))) in
  true = succeeded (witness_Run demo_env req objects)
  /\ objects !! 0
     = Some (Object [] false [("include-glob", "*.go"); ("exclude-glob", "vendor/*")]).
Proof.
  split.
  - apply (run_sees_bound_objects demo_env inplace_ro ["make"] []).
    vm_compute. repeat constructor.
  - reflexivity.
Defined.

(** ** The deferred close *)

(** X15: Once [witness.Run] is called, the output is closed on every way
    out of the pipeline, and closing it is the last thing the run does;
    a run that does not get as far as [witness.Run] never closes it. *)
Theorem close_follows_run env ro args h :
  let t := trace (runRun env ro args (start h)).2 in
  (EvClose ∈ t <-> exists req ok, EvRun req ok ∈ t)
  /\ ((exists req ok, EvRun req ok ∈ t) -> last t = Some EvClose).
Proof.
  rewrite runRun_prepared.
  destruct (prepare_paths env ro args h) as (Hpre & _ & _ & _).
  apply Prelude_events in Hpre.
  destruct (prepared env ro args (start h)) as [[req|e|msg] w2]; cbn in *.
  2,3: split; [split|];
       [intros Hin; by apply (Forall_elem _ _ _ Hpre) in Hin
       |intros (req & ok & Hin); by apply (Forall_elem _ _ _ Hpre) in Hin
       |intros (req & ok & Hin); by apply (Forall_elem _ _ _ Hpre) in Hin].
  destruct (deliver_cases env ro req w2) as (tail & Ht & _ & _).
  cbv zeta in *. rewrite Ht. split; [split|].
  - intros _. eexists req, _. apply elem_of_app. right. left.
  - intros _. rewrite app_comm_cons, app_assoc. apply elem_of_app. right. left.
  - intros _. by rewrite app_comm_cons, app_assoc, last_snoc.
Qed.

Lemma close_follows_run_witness :
  last (trace (runRun run_fails_env demo_ro ["make"] (start [])).2) = Some EvClose.
Proof.
  destruct (close_follows_run run_fails_env demo_ro ["make"] []) as [_ Hlast].
  apply Hlast.
  exists (request demo_ro "key.pem"
            (allocated 0 (built_types run_fails_env demo_ro ["make"]))
            (timestampers demo_ro)), false.
  vm_compute. repeat constructor.
Defined.
